(** * logspout-logstash: the Logstash adapter of logspout

    A shallow embedding of [logstash.go] (the adapter wired into logspout,
    lines 1-183 of the source file) together with the sibling revision kept
    next to it (lines 184-409), and proofs about tag extraction, the
    per-container tag cache, scheduler metadata, record composition and the
    framing of what is written to the connection.

    Go library functions the adapter calls ([strings], [unicode/utf8],
    [encoding/json]) are modelled from their documented behaviour. *)

From Stdlib Require Import String Ascii ZArith NArith Lia.
From stdpp Require Import base option list gmap strings sorting.

Set Warnings "-register-all".
Local Open Scope Z_scope.

(** ** Go runtime: panics, slices *)

(** A Go computation either returns or panics; the message is the one the
    runtime prints. *)
Inductive result (A : Type) : Type :=
  | Ok (a : A)
  | Panic (msg : string).
Arguments Ok {A} a.
Arguments Panic {A} msg.

#[export] Instance result_ret : MRet result := @Ok.
#[export] Instance result_bind : MBind result := fun A B k r =>
  match r with
  | Ok a => k a
  | Panic msg => Panic msg
  end.

(** A Go slice is either [nil] ([None]) or a sequence of elements. *)
Abbreviation slice A := (option (list A)).

(** The built-in [append(s, elems...)]: appending nothing to [nil] stays
    [nil]; every other case yields an allocated slice. *)
Definition append {A} (s : slice A) (elems : list A) : slice A :=
  match s, elems with
  | None, [] => None
  | None, _ => Some elems
  | Some l, _ => Some (l ++ elems)
  end.

(** Indexing [s[i]] on the elements of a slice; out of range is a run-time
    panic. *)
Definition index {A} (l : list A) (i : nat) : result A :=
  match l !! i with
  | Some x => Ok x
  | None => Panic "index out of range"
  end.

(** A Go map is either [nil] ([None]) or allocated. Assigning to an entry
    of a nil map panics; on an allocated map the entry is set. *)
Definition mapassign {V} (m : option (gmap string V)) (k : string) (v : V)
  : result (option (gmap string V)) :=
  match m with
  | None => Panic "assignment to entry in nil map"
  | Some m => Ok (Some (<[k := v]> m))
  end.

(** ** Package [strings] *)

Module strings.

(** [HasPrefix(s, prefix)] *)
Definition HasPrefix (s prefix : string) : bool := String.prefix prefix s.

Fixpoint skip (n : nat) (s : string) : string :=
  match n, s with
  | S k, String _ s' => skip k s'
  | _, _ => s
  end.

(** [TrimPrefix(s, prefix)]: [s] without the leading [prefix], or [s]
    itself when it does not start with [prefix]. *)
Definition TrimPrefix (s prefix : string) : string :=
  if HasPrefix s prefix then skip (String.length prefix) s else s.

(** One left-to-right pass that cuts [s] at every non-overlapping
    occurrence of [sep]; [pending] counts the bytes of the separator just
    matched that are still to be dropped, [seg] is the segment being
    collected. *)
Fixpoint genSplit (sep : string) (pending : nat) (seg s : string)
  : list string :=
  match s with
  | EmptyString => [seg]
  | String c s' =>
      match pending with
      | S k => genSplit sep k seg s'
      | O =>
          if String.prefix sep s
          then seg :: genSplit sep (String.length sep - 1) EmptyString s'
          else genSplit sep 0 (seg +:+ String c EmptyString) s'
      end
  end.

(** [Split(s, sep)] for a non-empty [sep] (the adapter only passes the
    one-byte literals [","] and ["="]): all substrings separated by
    [sep]; a string without [sep] yields the one-element slice [[s]]. *)
Definition Split (s sep : string) : list string :=
  genSplit sep 0 EmptyString s.

(** [Join(elems, sep)] *)
Definition Join (elems : list string) (sep : string) : string :=
  String.concat sep elems.

(** Replacement pass: [n] is the number of replacements still allowed, a
    negative [n] meaning no limit. *)
Fixpoint genReplace (old new : string) (pending : nat) (n : Z) (s : string)
  : string :=
  match s with
  | EmptyString => EmptyString
  | String c s' =>
      match pending with
      | S k => genReplace old new k n s'
      | O =>
          if negb (n =? 0) && String.prefix old s
          then new +:+ genReplace old new (String.length old - 1)
                         (if n <? 0 then n else n - 1) s'
          else String c (genReplace old new 0 n s')
      end
  end.

(** [Replace(s, old, new, n)] for a non-empty [old]: the first [n]
    non-overlapping occurrences of [old] replaced by [new]; if [n < 0]
    there is no limit on the number of replacements. *)
Definition Replace (s old new : string) (n : Z) : string :=
  if String.eqb old new || (n =? 0) then s
  else genReplace old new 0 n s.

End strings.

(** ** Bytes *)

Definition byte_val (c : ascii) : Z := Z.of_N (N_of_ascii c).
Definition byte_of (z : Z) : ascii := ascii_of_N (Z.to_N z).

Definition quote : ascii := "034"%char.
Definition backslash : ascii := "092"%char.
Definition newline : ascii := "010"%char.

(** Whether byte [c] occurs in [s]. *)
Fixpoint has_byte (c : ascii) (s : string) : bool :=
  match s with
  | EmptyString => false
  | String a s' => Ascii.eqb a c || has_byte c s'
  end.

(** ** Packages [unicode/utf8] and [unicode/utf16] *)

Module utf8.

Definition RuneError : Z := 0xFFFD.

Definition continuation (b : Z) : bool := (0x80 <=? b) && (b <=? 0xBF).

(** [DecodeRuneInString(s)]: the first rune of [s] and its width in
    bytes; [(RuneError, 1)] for an invalid or truncated encoding and
    [(RuneError, 0)] for the empty string. *)
Definition DecodeRuneInString (s : string) : Z * nat :=
  match s with
  | EmptyString => (RuneError, 0%nat)
  | String c0 s1 =>
      let b0 := byte_val c0 in
      if b0 <? 0x80 then (b0, 1%nat)
      else if b0 <? 0xC2 then (RuneError, 1%nat)
      else if b0 <? 0xE0 then
        match s1 with
        | String c1 _ =>
            let b1 := byte_val c1 in
            if continuation b1
            then (Z.lor (Z.shiftl (Z.land b0 0x1F) 6) (Z.land b1 0x3F),
                  2%nat)
            else (RuneError, 1%nat)
        | _ => (RuneError, 1%nat)
        end
      else if b0 <? 0xF0 then
        match s1 with
        | String c1 (String c2 _) =>
            let b1 := byte_val c1 in
            let b2 := byte_val c2 in
            let lo := if b0 =? 0xE0 then 0xA0 else 0x80 in
            let hi := if b0 =? 0xED then 0x9F else 0xBF in
            if (lo <=? b1) && (b1 <=? hi) && continuation b2
            then (Z.lor (Z.shiftl (Z.land b0 0x0F) 12)
                    (Z.lor (Z.shiftl (Z.land b1 0x3F) 6) (Z.land b2 0x3F)),
                  3%nat)
            else (RuneError, 1%nat)
        | _ => (RuneError, 1%nat)
        end
      else if b0 <? 0xF5 then
        match s1 with
        | String c1 (String c2 (String c3 _)) =>
            let b1 := byte_val c1 in
            let b2 := byte_val c2 in
            let b3 := byte_val c3 in
            let lo := if b0 =? 0xF0 then 0x90 else 0x80 in
            let hi := if b0 =? 0xF4 then 0x8F else 0xBF in
            if (lo <=? b1) && (b1 <=? hi) && continuation b2
               && continuation b3
            then (Z.lor (Z.shiftl (Z.land b0 0x07) 18)
                    (Z.lor (Z.shiftl (Z.land b1 0x3F) 12)
                       (Z.lor (Z.shiftl (Z.land b2 0x3F) 6)
                          (Z.land b3 0x3F))),
                  4%nat)
            else (RuneError, 1%nat)
        | _ => (RuneError, 1%nat)
        end
      else (RuneError, 1%nat)
  end.

Definition encode3 (r : Z) : string :=
  String (byte_of (Z.lor 0xE0 (Z.shiftr r 12)))
    (String (byte_of (Z.lor 0x80 (Z.land (Z.shiftr r 6) 0x3F)))
       (String (byte_of (Z.lor 0x80 (Z.land r 0x3F))) EmptyString)).

(** [EncodeRune]: the UTF-8 encoding of [r]; surrogates and values out
    of range encode as [RuneError]. *)
Definition EncodeRune (r : Z) : string :=
  if (0 <=? r) && (r <? 0x80) then String (byte_of r) EmptyString
  else if (0 <=? r) && (r <? 0x800) then
    String (byte_of (Z.lor 0xC0 (Z.shiftr r 6)))
      (String (byte_of (Z.lor 0x80 (Z.land r 0x3F))) EmptyString)
  else if (r <? 0) || (0x10FFFF <? r)
          || ((0xD800 <=? r) && (r <=? 0xDFFF))
  then encode3 RuneError
  else if r <? 0x10000 then encode3 r
  else
    String (byte_of (Z.lor 0xF0 (Z.shiftr r 18)))
      (String (byte_of (Z.lor 0x80 (Z.land (Z.shiftr r 12) 0x3F)))
         (String (byte_of (Z.lor 0x80 (Z.land (Z.shiftr r 6) 0x3F)))
            (String (byte_of (Z.lor 0x80 (Z.land r 0x3F))) EmptyString))).

End utf8.

Module utf16.

Definition IsSurrogate (r : Z) : bool := (0xD800 <=? r) && (r <? 0xE000).

(** [DecodeRune(r1, r2)]: the code point of a surrogate pair, or
    [utf8.RuneError] when the pair is not valid. *)
Definition DecodeRune (r1 r2 : Z) : Z :=
  if (0xD800 <=? r1) && (r1 <? 0xDC00) && (0xDC00 <=? r2) && (r2 <? 0xE000)
  then Z.lor (Z.shiftl (r1 - 0xD800) 10) (r2 - 0xDC00) + 0x10000
  else utf8.RuneError.

End utf16.

(** ** Package [encoding/json]: the scanner

    The lexical level of JSON: literals, numbers, strings, punctuation. *)

Module scanner.

Inductive token :=
  | TBeginObject | TEndObject | TBeginArray | TEndArray
  | TColon | TComma
  | TString (s : string)
  | TNumber (lit : string)
  | TTrue | TFalse | TNull.

Definition isSpace (c : ascii) : bool :=
  let b := byte_val c in (b =? 32) || (b =? 9) || (b =? 13) || (b =? 10).

Definition isDigit (c : ascii) : bool :=
  let b := byte_val c in (48 <=? b) && (b <=? 57).

Definition isLower (c : ascii) : bool :=
  let b := byte_val c in (97 <=? b) && (b <=? 122).

Definition snoc (s : string) (c : ascii) : string :=
  s +:+ String c EmptyString.

(** *** Number literals *)

Inductive numstate :=
  | NBegin | NNeg | NZero | NInt | NDot | NFrac | NE | NESign | NExp | NBad.

Definition isExp (c : ascii) : bool :=
  Ascii.eqb c "e" || Ascii.eqb c "E".

Definition num_step (st : numstate) (c : ascii) : numstate :=
  match st with
  | NBegin =>
      if Ascii.eqb c "-" then NNeg
      else if Ascii.eqb c "0" then NZero
      else if isDigit c then NInt else NBad
  | NNeg =>
      if Ascii.eqb c "0" then NZero
      else if isDigit c then NInt else NBad
  | NZero =>
      if Ascii.eqb c "." then NDot
      else if isExp c then NE else NBad
  | NInt =>
      if isDigit c then NInt
      else if Ascii.eqb c "." then NDot
      else if isExp c then NE else NBad
  | NDot => if isDigit c then NFrac else NBad
  | NFrac =>
      if isDigit c then NFrac
      else if isExp c then NE else NBad
  | NE =>
      if Ascii.eqb c "+" || Ascii.eqb c "-" then NESign
      else if isDigit c then NExp else NBad
  | NESign => if isDigit c then NExp else NBad
  | NExp => if isDigit c then NExp else NBad
  | NBad => NBad
  end.

Fixpoint num_run (st : numstate) (s : string) : numstate :=
  match s with
  | EmptyString => st
  | String c s' => num_run (num_step st c) s'
  end.

(** A literal of the JSON number grammar. *)
Definition validNumber (lit : string) : bool :=
  match num_run NBegin lit with
  | NZero | NInt | NFrac | NExp => true
  | _ => false
  end.

Definition isNumberByte (c : ascii) : bool :=
  isDigit c || Ascii.eqb c "-" || Ascii.eqb c "+" || Ascii.eqb c "."
  || isExp c.

(** *** String literals *)

Definition hexval (c : ascii) : option Z :=
  let b := byte_val c in
  if (48 <=? b) && (b <=? 57) then Some (b - 48)
  else if (97 <=? b) && (b <=? 102) then Some (b - 87)
  else if (65 <=? b) && (b <=? 70) then Some (b - 55)
  else None.

(** The rune of the four hex digits of a [\u] escape. *)
Definition getu4 (h1 h2 h3 h4 : ascii) : option Z :=
  a ← hexval h1; b ← hexval h2; c ← hexval h3; d ← hexval h4;
  Some (a * 4096 + b * 256 + c * 16 + d).

Definition simpleEscape (e : ascii) : option ascii :=
  if Ascii.eqb e quote || Ascii.eqb e backslash || Ascii.eqb e "/"
  then Some e
  else if Ascii.eqb e "b" then Some (byte_of 8)
  else if Ascii.eqb e "f" then Some (byte_of 12)
  else if Ascii.eqb e "n" then Some (byte_of 10)
  else if Ascii.eqb e "r" then Some (byte_of 13)
  else if Ascii.eqb e "t" then Some (byte_of 9)
  else None.

(** The second half of a surrogate pair, when the text continues with a
    [\u] escape. *)
Definition lookahead_u4 (s : string) : option Z :=
  match s with
  | String b (String u (String l1 (String l2 (String l3 (String l4 _)))))
    => if Ascii.eqb b backslash && Ascii.eqb u "u"
       then getu4 l1 l2 l3 l4 else None
  | _ => None
  end.

(** [unquote]: the content of a string literal (the bytes between the
    quotes) turned into the string it denotes. [copy] counts the
    continuation bytes of a valid multi-byte sequence still to be copied;
    an invalid byte becomes U+FFFD, a lone surrogate escape as well. *)
Fixpoint unquote (copy : nat) (s : string) {struct s} : option string :=
  match s with
  | EmptyString => Some EmptyString
  | String c s1 =>
    match copy with
    | S k => String c <$> unquote k s1
    | O =>
      if Ascii.eqb c backslash then
        match s1 with
        | EmptyString => None
        | String e s2 =>
          if Ascii.eqb e "u" then
            match s2 with
            | String h1 (String h2 (String h3 (String h4 s6))) =>
              match getu4 h1 h2 h3 h4 with
              | None => None
              | Some rr =>
                if utf16.IsSurrogate rr then
                  match lookahead_u4 s6, s6 with
                  | Some rr1,
                    String _ (String _ (String _ (String _
                      (String _ (String _ s12))))) =>
                      let dec := utf16.DecodeRune rr rr1 in
                      if dec =? utf8.RuneError
                      then String.append (utf8.EncodeRune utf8.RuneError)
                             <$> unquote 0 s6
                      else String.append (utf8.EncodeRune dec)
                             <$> unquote 0 s12
                  | _, _ =>
                      String.append (utf8.EncodeRune utf8.RuneError)
                        <$> unquote 0 s6
                  end
                else String.append (utf8.EncodeRune rr) <$> unquote 0 s6
              end
            | _ => None
            end
          else
            match simpleEscape e with
            | Some b => String b <$> unquote 0 s2
            | None => None
            end
        end
      else if Ascii.eqb c quote || (byte_val c <? 32) then None
      else if byte_val c <? 0x80 then String c <$> unquote 0 s1
      else
        let '(rr, size) := utf8.DecodeRuneInString s in
        if (rr =? utf8.RuneError) && (size =? 1)%nat
        then String.append (utf8.EncodeRune utf8.RuneError)
               <$> unquote 0 s1
        else String c <$> unquote (size - 1) s1
    end
  end.

(** *** The scanner *)

Inductive lexstate :=
  | LIdle
  | LInString (raw : string) (escaped : bool)
  | LInNumber (lit : string)
  | LInWord (w : string).

Definition lex_idle (c : ascii) : option (lexstate * list token) :=
  if isSpace c then Some (LIdle, [])
  else if Ascii.eqb c "{" then Some (LIdle, [TBeginObject])
  else if Ascii.eqb c "}" then Some (LIdle, [TEndObject])
  else if Ascii.eqb c "[" then Some (LIdle, [TBeginArray])
  else if Ascii.eqb c "]" then Some (LIdle, [TEndArray])
  else if Ascii.eqb c ":" then Some (LIdle, [TColon])
  else if Ascii.eqb c "," then Some (LIdle, [TComma])
  else if Ascii.eqb c quote then Some (LInString EmptyString false, [])
  else if Ascii.eqb c "-" || isDigit c
  then Some (LInNumber (String c EmptyString), [])
  else if isLower c then Some (LInWord (String c EmptyString), [])
  else None.

Definition lex_number (lit : string) : option token :=
  if validNumber lit then Some (TNumber lit) else None.

Definition lex_word (w : string) : option token :=
  if String.eqb w "true" then Some TTrue
  else if String.eqb w "false" then Some TFalse
  else if String.eqb w "null" then Some TNull
  else None.

Definition lex_step (st : lexstate) (c : ascii)
  : option (lexstate * list token) :=
  match st with
  | LIdle => lex_idle c
  | LInString raw escaped =>
      if escaped then Some (LInString (snoc raw c) false, [])
      else if Ascii.eqb c quote then
        s ← unquote 0 raw; Some (LIdle, [TString s])
      else if Ascii.eqb c backslash
      then Some (LInString (snoc raw c) true, [])
      else if byte_val c <? 32 then None
      else Some (LInString (snoc raw c) false, [])
  | LInNumber lit =>
      if isNumberByte c then Some (LInNumber (snoc lit c), [])
      else
        t ← lex_number lit;
        '(st', ts) ← lex_idle c;
        Some (st', t :: ts)
  | LInWord w =>
      if isLower c then Some (LInWord (snoc w c), [])
      else
        t ← lex_word w;
        '(st', ts) ← lex_idle c;
        Some (st', t :: ts)
  end.

Definition lex_end (st : lexstate) : option (list token) :=
  match st with
  | LIdle => Some []
  | LInString _ _ => None
  | LInNumber lit => t ← lex_number lit; Some [t]
  | LInWord w => t ← lex_word w; Some [t]
  end.

Fixpoint lex_from (st : lexstate) (s : string) : option (list token) :=
  match s with
  | EmptyString => lex_end st
  | String c s' =>
      '(st', ts) ← lex_step st c;
      rest ← lex_from st' s';
      Some (ts ++ rest)
  end.

Definition lex (s : string) : option (list token) := lex_from LIdle s.

End scanner.

(** ** Dynamic values

    [float64] stays abstract: [ParseFloat] is [strconv.ParseFloat(s, 64)]
    on a JSON number literal ([None] when the value is out of range) and
    [FormatFloat] is the encoder's rendering of a [float64] ([None] for NaN
    and the infinities, which [encoding/json] refuses to encode); what it
    writes is a JSON number. *)
Class Float64 := {
  float64 : Type;
  ParseFloat : string -> option float64;
  FormatFloat : float64 -> option string;
  FormatFloat_number :
    forall f s, FormatFloat f = Some s -> scanner.validNumber s = true
}.

(** [DockerInfo] (lines 164-169). *)
Module DockerInfo.
Record t := {
  Name : string;
  ID : string;
  Image : string;
  Hostname : string
}.
End DockerInfo.

(** [LogstashMessage] (lines 176-183): [Marathon] is a pointer to a map
    ([None] is the nil pointer), tagged [omitempty]. *)
Module LogstashMessage.
Record t := {
  Message : string;
  Stream : string;
  Docker : DockerInfo.t;
  Marathon : option (gmap string string);
  Tags : slice string
}.
End LogstashMessage.

Section Values.
Context {F : Float64}.

(** What an [interface{}] holds in this program: the values
    [json.Unmarshal] stores ([nil], [bool], [float64], [string],
    [[]interface{}], [map[string]interface{}]) and the three the adapter
    stores or passes to [json.Marshal] itself ([DockerInfo], [[]string],
    [map[string]string], [LogstashMessage]). *)
Inductive iface : Type :=
  | INil
  | IBool (b : bool)
  | IFloat64 (f : float64)
  | IString (s : string)
  | ISlice (l : list iface)
  | IMap (m : gmap string iface)
  | IDockerInfo (d : DockerInfo.t)
  | IStrings (l : slice string)
  | IStringMap (m : gmap string string)
  | IMessage (msg : LogstashMessage.t).

End Values.

(** ** Package [encoding/json]: decoding *)

Module json.

Inductive error :=
  | SyntaxError
  | UnmarshalTypeError
  | UnsupportedValueError.

Import scanner.

(** *** The decoder *)

Section Decode.
Context {F : Float64}.

(** Containers being read: the elements of an array so far (last
    first), or the entries of an object so far and the key whose value
    is awaited. *)
Inductive frame :=
  | FArray (items : list iface)
  | FObject (m : gmap string iface) (key : option string).

Inductive expect :=
  | XValue | XValueOrEnd | XKeyOrEnd | XKey | XColon | XCommaOrEnd
  | XDone (v : iface).

(** [maxNestingDepth] *)
Definition maxNestingDepth : Z := 10000.

Definition push (f : frame) (stack : list frame) : option (list frame) :=
  if Z.of_nat (length stack) <? maxNestingDepth
  then Some (f :: stack) else None.

(** A finished value goes into the enclosing container; a repeated
    object key replaces the earlier entry. *)
Definition put (v : iface) (stack : list frame)
  : option (list frame * expect) :=
  match stack with
  | [] => Some ([], XDone v)
  | FArray items :: st => Some (FArray (v :: items) :: st, XCommaOrEnd)
  | FObject m (Some k) :: st =>
      Some (FObject (<[k := v]> m) None :: st, XCommaOrEnd)
  | FObject _ None :: _ => None
  end.

(** A literal stored into an [interface{}]; the flag reports a number
    that does not fit a [float64], which is skipped and reported once
    decoding is over. *)
Definition literal (t : token) : option (iface * bool) :=
  match t with
  | TString s => Some (IString s, false)
  | TNumber lit =>
      match ParseFloat lit with
      | Some f => Some (IFloat64 f, false)
      | None => Some (INil, true)
      end
  | TTrue => Some (IBool true, false)
  | TFalse => Some (IBool false, false)
  | TNull => Some (INil, false)
  | _ => None
  end.

Definition begin_value (stack : list frame) (t : token)
  : option (list frame * expect * bool) :=
  match t with
  | TBeginArray =>
      st ← push (FArray []) stack; Some (st, XValueOrEnd, false)
  | TBeginObject =>
      st ← push (FObject ∅ None) stack; Some (st, XKeyOrEnd, false)
  | _ =>
      '(v, e) ← literal t;
      '(st, x) ← put v stack;
      Some (st, x, e)
  end.

Definition end_value (stack : list frame) (t : token)
  : option (list frame * expect * bool) :=
  match t, stack with
  | TEndArray, FArray items :: st =>
      '(st', x) ← put (ISlice (rev items)) st; Some (st', x, false)
  | TEndObject, FObject m None :: st =>
      '(st', x) ← put (IMap m) st; Some (st', x, false)
  | _, _ => None
  end.

Definition begin_key (stack : list frame) (t : token)
  : option (list frame * expect * bool) :=
  match t, stack with
  | TString k, FObject m None :: st =>
      Some (FObject m (Some k) :: st, XColon, false)
  | _, _ => None
  end.

Definition parse_step (stack : list frame) (x : expect) (t : token)
  : option (list frame * expect * bool) :=
  match x with
  | XValue => begin_value stack t
  | XValueOrEnd =>
      match t with
      | TEndArray => end_value stack t
      | _ => begin_value stack t
      end
  | XKeyOrEnd =>
      match t with
      | TEndObject => end_value stack t
      | _ => begin_key stack t
      end
  | XKey => begin_key stack t
  | XColon =>
      match t with
      | TColon => Some (stack, XValue, false)
      | _ => None
      end
  | XCommaOrEnd =>
      match t with
      | TComma =>
          match stack with
          | FArray _ :: _ => Some (stack, XValue, false)
          | FObject _ _ :: _ => Some (stack, XKey, false)
          | [] => None
          end
      | _ => end_value stack t
      end
  | XDone _ => None
  end.

Fixpoint parse_from (stack : list frame) (x : expect) (terr : bool)
    (toks : list token) : option (iface * bool) :=
  match toks with
  | [] =>
      match x with
      | XDone v => Some (v, terr)
      | _ => None
      end
  | t :: ts =>
      '(st, x', e) ← parse_step stack x t;
      parse_from st x' (terr || e) ts
  end.

Definition parse (toks : list token) : option (iface * bool) :=
  parse_from [] XValue false toks.

(** [json.Unmarshal(data, &m)] for a nil [m] of type
    [map[string]interface{}]: the error, or the map left in [m]. A JSON
    object yields its map, JSON [null] leaves [m] nil without an error,
    any other value is a type error. (After an error the adapter does
    not read [m].) *)
Definition Unmarshal (data : string)
  : error + option (gmap string iface) :=
  match lex data with
  | None => inl SyntaxError
  | Some toks =>
      match parse toks with
      | None => inl SyntaxError
      | Some (_, true) => inl UnmarshalTypeError
      | Some (IMap m, false) => inr (Some m)
      | Some (INil, false) => inr None
      | Some (_, false) => inl UnmarshalTypeError
      end
  end.

End Decode.

(** ** Package [encoding/json]: encoding *)

Definition hexdigit (n : Z) : ascii :=
  if n <? 10 then byte_of (48 + n) else byte_of (87 + n).

(** [htmlSafeSet]: the ASCII bytes written without escaping. *)
Definition htmlSafe (b : Z) : bool :=
  (32 <=? b)
  && negb ((b =? 34) || (b =? 92) || (b =? 60) || (b =? 62) || (b =? 38)).

(** One ASCII byte of a string: itself, a two-character escape, or
    [\u00XX]. *)
Definition escapeByte (c : ascii) : string :=
  let b := byte_val c in
  if htmlSafe b then String c EmptyString
  else if (b =? 92) || (b =? 34) then String backslash (String c EmptyString)
  else if b =? 8 then String backslash "b"
  else if b =? 12 then String backslash "f"
  else if b =? 10 then String backslash "n"
  else if b =? 13 then String backslash "r"
  else if b =? 9 then String backslash "t"
  else String backslash
         (String "u" (String "0" (String "0"
            (String (hexdigit (b / 16))
               (String (hexdigit (b mod 16)) EmptyString))))).

(** [appendString] with HTML escaping on, without the surrounding quotes.
    [pending] counts the remaining bytes of a multi-byte sequence already
    decided, which are copied ([copy]) or, for U+2028 and U+2029 written
    as escapes, dropped. *)
Fixpoint appendString (pending : nat) (copy : bool) (s : string) : string :=
  match s with
  | EmptyString => EmptyString
  | String c s1 =>
      match pending with
      | S k =>
          if copy then String c (appendString k copy s1)
          else appendString k copy s1
      | O =>
          if byte_val c <? 0x80
          then escapeByte c +:+ appendString 0 true s1
          else
            let '(r, size) := utf8.DecodeRuneInString s in
            if (r =? utf8.RuneError) && (size =? 1)%nat
            then String backslash "ufffd" +:+ appendString 0 true s1
            else if (r =? 0x2028) || (r =? 0x2029)
            then String backslash "u202"
                 +:+ String (hexdigit (Z.land r 0xF))
                       (appendString (size - 1) false s1)
            else String c (appendString (size - 1) true s1)
      end
  end.

Definition encodeString (s : string) : string :=
  String quote (appendString 0 true s +:+ String quote EmptyString).

Definition field (kv : string * string) : string :=
  encodeString kv.1 +:+ ":" +:+ kv.2.

(** An object from its fields, already encoded and in output order. *)
Definition object (fields : list (string * string)) : string :=
  "{" +:+ String.concat "," (map field fields) +:+ "}".

Definition array (elems : list string) : string :=
  "[" +:+ String.concat "," elems +:+ "]".

(** Map entries are written sorted by key. *)
Definition key_le (x y : string * string) : Prop :=
  Is_true (String.leb x.1 y.1).

#[export] Instance key_le_dec x y : Decision (key_le x y) := _.

Definition sortedObject (fields : list (string * string)) : string :=
  object (merge_sort key_le fields).

(** [[]string]: a nil slice encodes as [null]. *)
Definition encodeStrings (l : slice string) : string :=
  match l with
  | None => "null"
  | Some l => array (map encodeString l)
  end.

(** [map[string]string] (allocated). *)
Definition encodeStringMap (m : gmap string string) : string :=
  sortedObject (map_to_list (encodeString <$> m)).

(** Structs are written field by field in declaration order under their
    [json] names. *)
Definition encodeDockerInfo (d : DockerInfo.t) : string :=
  object [("name", encodeString (DockerInfo.Name d));
          ("id", encodeString (DockerInfo.ID d));
          ("image", encodeString (DockerInfo.Image d));
          ("hostname", encodeString (DockerInfo.Hostname d))].

(** [omitempty] drops the [marathon] field when the pointer is nil. *)
Definition encodeMessage (msg : LogstashMessage.t) : string :=
  object
    ([("message", encodeString (LogstashMessage.Message msg));
      ("stream", encodeString (LogstashMessage.Stream msg));
      ("docker", encodeDockerInfo (LogstashMessage.Docker msg))]
     ++ match LogstashMessage.Marathon msg with
        | Some m => [("marathon", encodeStringMap m)]
        | None => []
        end
     ++ [("tags", encodeStrings (LogstashMessage.Tags msg))]).

Section Encode.
Context {F : Float64}.

(** The encoding of a value; [None] when it holds a [float64] that
    cannot be written. *)
Fixpoint encode (v : iface) : option string :=
  match v with
  | INil => Some "null"
  | IBool b => Some (if b then "true" else "false")
  | IFloat64 f => FormatFloat f
  | IString s => Some (encodeString s)
  | ISlice l =>
      array <$>
        foldr (fun x acc => s ← encode x; rest ← acc; Some (s :: rest))
          (Some []) l
  | IMap m =>
      sortedObject <$>
        map_fold
          (fun k x acc => s ← encode x; rest ← acc; Some ((k, s) :: rest))
          (Some []) m
  | IDockerInfo d => Some (encodeDockerInfo d)
  | IStrings l => Some (encodeStrings l)
  | IStringMap m => Some (encodeStringMap m)
  | IMessage msg => Some (encodeMessage msg)
  end.

(** [json.Marshal(v)] *)
Definition Marshal (v : iface) : error + string :=
  match encode v with
  | Some js => inr js
  | None => inl UnsupportedValueError
  end.

End Encode.

End json.

(** ** Collaborators: go-dockerclient containers, router messages, the
    connection *)

Module docker.
Module Config.
Record t := { Image : string; Hostname : string; Env : list string }.
End Config.
Module Container.
Record t := { ID : string; Name : string; Config : Config.t }.
End Container.
End docker.

Module router.
Module Message.
Record t := {
  Container : docker.Container.t;
  Source : string;
  Data : string
}.
End Message.
End router.

(** [net.Conn], of which the adapter only uses [Write]: a write returns the
    connection's next state and the error, if any. *)
Class Conn (C : Type) := {
  Write : C -> string -> C * option string
}.

(** ** The adapter: tags and their cache *)

Section Adapter.
Context {F : Float64} {C : Type} `{Conn C}.

(** [LogstashAdapter]; the [route] field is only stored, never read. *)
Record LogstashAdapter := {
  conn : C;
  containerTags : gmap string (slice string)
}.

(** Body of the loop of [GetContainerTags] (lines 69-75). *)
Definition GetContainerTags_body (tags : slice string) (e : string)
  : slice string :=
  if strings.HasPrefix e "LOGSTASH_TAGS="
  then append tags
         (strings.Split (strings.TrimPrefix e "LOGSTASH_TAGS=") ",")
  else if strings.HasPrefix e "MARATHON_APP_LABEL_"
  then append tags
         [strings.Replace (strings.TrimPrefix e "MARATHON_APP_LABEL_")
            "=" "_" (-1)]
  else tags.

(** [GetContainerTags] (lines 63-79): the tags of a container, looked up
    in the adapter's cache or computed from the environment and stored. *)
Definition GetContainerTags (c : docker.Container.t) (a : LogstashAdapter)
  : slice string * LogstashAdapter :=
  match containerTags a !! docker.Container.ID c with
  | Some tags => (tags, a)
  | None =>
      let tags :=
        fold_left GetContainerTags_body
          (docker.Config.Env (docker.Container.Config c)) (Some []) in
      (tags,
       {| conn := conn a;
          containerTags :=
            <[docker.Container.ID c := tags]> (containerTags a) |})
  end.

(** Body of the loop of [GetMarathonInfo] (lines 88-94): [kv[1]] is read
    without a length check. *)
Definition GetMarathonInfo_body (marathoninfo : gmap string string)
    (e : string) : result (gmap string string) :=
  if strings.HasPrefix e "MARATHON_APP_LABEL_"
  then
    let kv :=
      strings.Split (strings.TrimPrefix e "MARATHON_APP_LABEL_") "=" in
    k ← index kv 0;
    v ← index kv 1;
    Ok (<[k := v]> marathoninfo)
  else Ok marathoninfo.

Fixpoint GetMarathonInfo_range (env : list string)
    (marathoninfo : gmap string string) : result (gmap string string) :=
  match env with
  | [] => Ok marathoninfo
  | e :: env' =>
      m ← GetMarathonInfo_body marathoninfo e;
      GetMarathonInfo_range env' m
  end.

(** [GetMarathonInfo] (lines 81-103): the label map of a container; it
    neither reads nor writes the adapter. *)
Definition GetMarathonInfo (c : docker.Container.t) (a : LogstashAdapter)
  : result (gmap string string) :=
  GetMarathonInfo_range (docker.Config.Env (docker.Container.Config c)) ∅.

(** The [DockerInfo] literal of [Stream] (lines 110-115). *)
Definition newDockerInfo (m : router.Message.t) : DockerInfo.t :=
  {| DockerInfo.Name := docker.Container.Name (router.Message.Container m);
     DockerInfo.ID := docker.Container.ID (router.Message.Container m);
     DockerInfo.Image :=
       docker.Config.Image
         (docker.Container.Config (router.Message.Container m));
     DockerInfo.Hostname :=
       docker.Config.Hostname
         (docker.Container.Config (router.Message.Container m)) |}.

(** The value handed to [json.Marshal] for message [m] (lines 122-133 and
    141-145): a new [LogstashMessage] when the payload does not decode,
    else the decoded map with four entries assigned. The [Marathon] field
    is a pointer and is given the map [GetMarathonInfo] returned: it points
    to that map and is never nil. *)
Definition compose (m : router.Message.t) (dockerInfo : DockerInfo.t)
    (tags : slice string) (marathonInfo : gmap string string)
  : result iface :=
  match json.Unmarshal (router.Message.Data m) with
  | inl _ =>
      Ok (IMessage
            {| LogstashMessage.Message := router.Message.Data m;
               LogstashMessage.Docker := dockerInfo;
               LogstashMessage.Marathon := Some marathonInfo;
               LogstashMessage.Stream := router.Message.Source m;
               LogstashMessage.Tags := tags |})
  | inr data =>
      data ← mapassign data "docker" (IDockerInfo dockerInfo);
      data ← mapassign data "tags" (IStrings tags);
      data ← mapassign data "stream" (IString (router.Message.Source m));
      data ← mapassign data "marathon" (IStringMap marathonInfo);
      Ok (match data with
          | Some d => IMap d
          | None => INil
          end)
  end.

(** What one run of the adapter does to the outside world. *)
Inductive event :=
  | Written (js : string)
  | Logged (err : json.error)
  | LoggedFatal (err : string).

(** How [Stream] ends: the channel was closed, [log.Fatal] exited the
    process, or a panic unwound it. *)
Inductive exit :=
  | Closed
  | Exited
  | Panicked (msg : string).

Record run := {
  events : list event;
  adapter : LogstashAdapter;
  ended : exit
}.

(** Body of the loop of [Stream] (lines 110-160) for message [m]: the
    adapter afterwards, the events, and how the process ended if it did
    ([None]: on to the next message). *)
Definition Stream_body (a : LogstashAdapter) (m : router.Message.t)
  : LogstashAdapter * list event * option exit :=
  let dockerInfo := newDockerInfo m in
  let '(tags, a) := GetContainerTags (router.Message.Container m) a in
  match
    marathonInfo ← GetMarathonInfo (router.Message.Container m) a;
    compose m dockerInfo tags marathonInfo
  with
  | Panic msg => (a, [], Some (Panicked msg))
  | Ok v =>
      match json.Marshal v with
      | inl err => (a, [Logged err], None)
      | inr js =>
          let js := js +:+ String newline EmptyString in
          let '(c, err) := Write (conn a) js in
          let a := {| conn := c; containerTags := containerTags a |} in
          match err with
          | Some e => (a, [Written js; LoggedFatal e], Some Exited)
          | None => (a, [Written js], None)
          end
      end
  end.

(** [Stream] (lines 106-162): the messages of the channel until it is
    closed. *)
Fixpoint Stream (a : LogstashAdapter) (logstream : list router.Message.t)
  : run :=
  match logstream with
  | [] => {| events := []; adapter := a; ended := Closed |}
  | m :: rest =>
      let '(a', evs, stop) := Stream_body a m in
      match stop with
      | Some e => {| events := evs; adapter := a'; ended := e |}
      | None =>
          let r := Stream a' rest in
          {| events := evs ++ events r;
             adapter := adapter r;
             ended := ended r |}
      end
  end.

End Adapter.

(** ** The sibling revision: [GetMarathonData] *)

(** [MarathonData] (lines 397-403); the two maps are nil in the zero
    value. *)
Module MarathonData.
Record t := {
  Version : string;
  Resource : option (gmap string string);
  ID : string;
  Label : option (gmap string string);
  Image : string
}.
End MarathonData.

(** Body of the loop of [GetMarathonData] (lines 280-297). *)
Definition GetMarathonData_body (m : MarathonData.t) (e : string)
  : result MarathonData.t :=
  let 'MarathonData.Build_t version resource id label image := m in
  if strings.HasPrefix e "MARATHON_APP_LABEL_" then
    let kv :=
      strings.Split (strings.TrimPrefix e "MARATHON_APP_LABEL_") "=" in
    k ← index kv 0;
    v ← index kv 1;
    label ← mapassign label k v;
    Ok (MarathonData.Build_t version resource id label image)
  else if strings.HasPrefix e "MARATHON_APP_RESOURCE_CPUS=" then
    resource ← mapassign resource "cpus"
                 (strings.TrimPrefix e "MARATHON_APP_RESOURCE_CPUS=");
    Ok (MarathonData.Build_t version resource id label image)
  else if strings.HasPrefix e "MARATHON_APP_RESOURCE_MEM=" then
    resource ← mapassign resource "mem"
                 (strings.TrimPrefix e "MARATHON_APP_RESOURCE_MEM=");
    Ok (MarathonData.Build_t version resource id label image)
  else if strings.HasPrefix e "MARATHON_APP_RESOURCE_DISK=" then
    resource ← mapassign resource "disk"
                 (strings.TrimPrefix e "MARATHON_APP_RESOURCE_DISK=");
    Ok (MarathonData.Build_t version resource id label image)
  else if strings.HasPrefix e "MARATHON_APP_ID=" then
    Ok (MarathonData.Build_t version resource
          (strings.TrimPrefix e "MARATHON_APP_ID=") label image)
  else if strings.HasPrefix e "MARATHON_APP_VERSION=" then
    Ok (MarathonData.Build_t
          (strings.TrimPrefix e "MARATHON_APP_VERSION=") resource id label
          image)
  else if strings.HasPrefix e "MARATHON_APP_DOCKER_IMAGE=" then
    Ok (MarathonData.Build_t version resource id label
          (strings.TrimPrefix e "MARATHON_APP_DOCKER_IMAGE="))
  else Ok m.

Fixpoint GetMarathonData_range (env : list string) (m : MarathonData.t)
  : result MarathonData.t :=
  match env with
  | [] => Ok m
  | e :: env' =>
      m' ← GetMarathonData_body m e;
      GetMarathonData_range env' m'
  end.

(** [GetMarathonData] (lines 248-301), starting from [MarathonData{}]. *)
Definition GetMarathonData (c : docker.Container.t) : result MarathonData.t :=
  GetMarathonData_range (docker.Config.Env (docker.Container.Config c))
    {| MarathonData.Version := EmptyString;
       MarathonData.Resource := None;
       MarathonData.ID := EmptyString;
       MarathonData.Label := None;
       MarathonData.Image := EmptyString |}.

(** [GetContainerTags] of the sibling revision (lines 228-243): the loop
    stops at the first [LOGSTASH_TAGS=] entry and the tags are that entry's
    segments. *)
Module sibling.
Section SiblingTags.
Context {C : Type}.

Fixpoint GetContainerTags_range (env : list string) (tags : slice string)
  : slice string :=
  match env with
  | [] => tags
  | e :: env' =>
      if strings.HasPrefix e "LOGSTASH_TAGS="
      then Some (strings.Split (strings.TrimPrefix e "LOGSTASH_TAGS=") ",")
      else GetContainerTags_range env' tags
  end.

Definition GetContainerTags (c : docker.Container.t)
    (a : @LogstashAdapter C) : slice string * @LogstashAdapter C :=
  match containerTags a !! docker.Container.ID c with
  | Some tags => (tags, a)
  | None =>
      let tags :=
        GetContainerTags_range
          (docker.Config.Env (docker.Container.Config c)) (Some []) in
      (tags,
       {| conn := conn a;
          containerTags :=
            <[docker.Container.ID c := tags]> (containerTags a) |})
  end.

End SiblingTags.
End sibling.

(** ** Construction *)

(** [router.Route], as far as the adapter reads it. *)
Module Route.
Record t := {
  Adapter : string;
  Address : string;
  Options : gmap string string
}.
End Route.

Section Construction.
Context {C : Type}.

(** A transport of logspout's registry: it dials an address and gives a
    connection or an error. *)
Record AdapterTransport := {
  Dial : string -> gmap string string -> string + C
}.

(** The registry [router.AdapterTransports] and the method
    [Route.AdapterTransport] belong to logspout; the adapter only calls
    them. *)
Variable AdapterTransports_Lookup : string -> option AdapterTransport.
Variable Route_AdapterTransport : Route.t -> string -> string.

(** [NewLogstashAdapter] (lines 26-42): the error, or the adapter. *)
Definition NewLogstashAdapter (route : Route.t)
  : string + @LogstashAdapter C :=
  match AdapterTransports_Lookup (Route_AdapterTransport route "udp") with
  | None => inl ("unable to find adapter: " +:+ Route.Adapter route)
  | Some transport =>
      match Dial transport (Route.Address route) (Route.Options route) with
      | inl err => inl err
      | inr conn => inr {| conn := conn; containerTags := ∅ |}
      end
  end.

End Construction.

(** ** Instances to run the adapter on *)

(** A [float64] kept as its decimal text. *)
Program Definition decimalFloat : Float64 :=
  {| float64 := string;
     ParseFloat := fun lit => Some lit;
     FormatFloat := fun f =>
       if scanner.validNumber f then Some f else None |}.
Next Obligation.
  intros f s. cbn beta.
  destruct (scanner.validNumber f) eqn:Hf; congruence.
Qed.

(** A [float64] none of whose values can be encoded, as NaN cannot: it
    exercises the encoder's error path. *)
Program Definition nanFloat : Float64 :=
  {| float64 := unit;
     ParseFloat := fun _ => Some tt;
     FormatFloat := fun _ => None |}.
Next Obligation. discriminate. Qed.

(** A connection that accepts a given number of writes and then fails. *)
Definition quotaConn : Conn nat :=
  {| Write := fun n _ =>
       match n with
       | O => (O, Some "broken pipe")
       | S k => (k, None)
       end |}.

Definition newAdapter {C} (c : C) : @LogstashAdapter C :=
  {| conn := c; containerTags := ∅ |}.

Definition container (id : string) (env : list string) : docker.Container.t :=
  {| docker.Container.ID := id;
     docker.Container.Name := "/web";
     docker.Container.Config :=
       {| docker.Config.Image := "nginx";
          docker.Config.Hostname := "host1";
          docker.Config.Env := env |} |}.

Definition message (id : string) (env : list string) (data : string)
  : router.Message.t :=
  {| router.Message.Container := container id env;
     router.Message.Source := "stdout";
     router.Message.Data := data |}.

(** A registry with the one transport [udp], which dials every address
    but the empty one and gives a connection good for nine writes. *)
Definition udpOnly (name : string) : option (@AdapterTransport nat) :=
  if String.eqb name "udp"
  then Some {| Dial := fun address _ =>
                 if String.eqb address EmptyString
                 then inl "missing address"
                 else inr 9%nat |}
  else None.

(** The transport named after the [+] of the adapter's name, or the
    default. *)
Definition transportOf (route : Route.t) (dfault : string) : string :=
  match strings.Split (Route.Adapter route) "+" with
  | _ :: transport :: _ => transport
  | _ => dfault
  end.

(** A text between double quotes, to spell JSON out. *)
Definition quoted (s : string) : string :=
  String quote (s +:+ String quote EmptyString).

(** The payload [{"a":1}]. *)
Definition numberPayload : string := "{" +:+ quoted "a" +:+ ":1}".

(** The line expected on the wire for the payload [hello] of container
    [c1] with tags [prod] and [web] and no label. *)
Definition helloLine : string :=
  "{" +:+ quoted "message" +:+ ":" +:+ quoted "hello"
  +:+ "," +:+ quoted "stream" +:+ ":" +:+ quoted "stdout"
  +:+ "," +:+ quoted "docker" +:+ ":{"
  +:+ quoted "name" +:+ ":" +:+ quoted "/web"
  +:+ "," +:+ quoted "id" +:+ ":" +:+ quoted "c1"
  +:+ "," +:+ quoted "image" +:+ ":" +:+ quoted "nginx"
  +:+ "," +:+ quoted "hostname" +:+ ":" +:+ quoted "host1" +:+ "}"
  +:+ "," +:+ quoted "marathon" +:+ ":{}"
  +:+ "," +:+ quoted "tags" +:+ ":[" +:+ quoted "prod" +:+ ","
  +:+ quoted "web" +:+ "]}" +:+ String newline EmptyString.

(** ** Auxiliary notions used in the statements *)

(** Bytewise image of a string. *)
Fixpoint map_bytes (f : ascii -> ascii) (s : string) : string :=
  match s with
  | EmptyString => EmptyString
  | String c s' => String (f c) (map_bytes f s')
  end.

(** The first [n] bytes of [s], as far as they exist, are not ASCII. *)
Fixpoint high_prefix (n : nat) (s : string) : Prop :=
  match n, s with
  | S k, String c s' => 0x80 <= byte_val c /\ high_prefix k s'
  | _, _ => True
  end.

Section Size.
Context {F : Float64}.

Fixpoint iface_size (v : iface) : nat :=
  match v with
  | ISlice l => S (foldr (fun x n => (iface_size x + n)%nat) 0%nat l)
  | IMap m => S (map_fold (fun _ x n => (iface_size x + n)%nat) 0%nat m)
  | _ => 1%nat
  end.
End Size.

(** The tag the specification describes for a label entry: the prefix
    stripped and only the first [=] replaced. *)
Definition spec_label_tag (e : string) : string :=
  strings.Replace (strings.TrimPrefix e "MARATHON_APP_LABEL_") "=" "_" 1.

(** How often byte [c] occurs in [s]. *)
Fixpoint count_byte (c : ascii) (s : string) : nat :=
  match s with
  | EmptyString => 0%nat
  | String a s' => ((if Ascii.eqb a c then 1 else 0) + count_byte c s')%nat
  end.

(** Every byte of [s] satisfies [p]. *)
Fixpoint all_bytes (p : ascii -> bool) (s : string) : bool :=
  match s with
  | EmptyString => true
  | String a s' => p a && all_bytes p s'
  end.

(** ASCII bytes; bytes that are not control characters. *)
Definition isASCII (c : ascii) : bool := byte_val c <? 0x80.
Definition notControl (c : ascii) : bool := 32 <=? byte_val c.

(** Whether an entry is read by the tag scan. *)
Definition isTagEntry (e : string) : bool :=
  strings.HasPrefix e "LOGSTASH_TAGS="
  || strings.HasPrefix e "MARATHON_APP_LABEL_".

(** Whether an entry makes [GetMarathonData] assign to one of its maps. *)
Definition isMapEntry (e : string) : bool :=
  strings.HasPrefix e "MARATHON_APP_LABEL_"
  || strings.HasPrefix e "MARATHON_APP_RESOURCE_CPUS="
  || strings.HasPrefix e "MARATHON_APP_RESOURCE_MEM="
  || strings.HasPrefix e "MARATHON_APP_RESOURCE_DISK=".

(** The buffers written and the errors logged, in order. *)
Definition writes (evs : list event) : list string :=
  omap (fun ev => match ev with Written js => Some js | _ => None end) evs.

Definition logged (evs : list event) : list json.error :=
  omap (fun ev => match ev with Logged err => Some err | _ => None end) evs.

Definition fatals (evs : list event) : list string :=
  omap (fun ev => match ev with LoggedFatal e => Some e | _ => None end) evs.

(** Every slice in the cache is allocated. *)
Definition cache_allocated {C} (a : @LogstashAdapter C) : Prop :=
  forall id tags, containerTags a !! id = Some tags -> is_Some tags.

Section ParserInvariant.
Context {F : Float64}.

(** Arrays and objects; and the parser being inside a container, or done
    with a document that was one. *)
Definition container_value (v : iface) : Prop :=
  match v with
  | ISlice _ | IMap _ => True
  | _ => False
  end.

Definition inside (stack : list json.frame) (x : json.expect) : Prop :=
  match x with
  | json.XDone v => container_value v
  | _ => stack <> []
  end.

End ParserInvariant.

Section Turn.
Context {F : Float64} {C : Type} `{Conn C}.

(** What one turn of the loop does, with the values it used. *)
Inductive turn (a : LogstashAdapter) (m : router.Message.t)
  : LogstashAdapter * list event * option exit -> Prop :=
  | turn_panic msg :
      (marathonInfo ← GetMarathonInfo (router.Message.Container m)
                        (GetContainerTags (router.Message.Container m) a).2;
       compose m (newDockerInfo m)
         (GetContainerTags (router.Message.Container m) a).1 marathonInfo)
      = Panic msg ->
      turn a m ((GetContainerTags (router.Message.Container m) a).2, [],
                Some (Panicked msg))
  | turn_logged marathonInfo v err :
      GetMarathonInfo (router.Message.Container m)
        (GetContainerTags (router.Message.Container m) a).2
      = Ok marathonInfo ->
      compose m (newDockerInfo m)
        (GetContainerTags (router.Message.Container m) a).1 marathonInfo
      = Ok v ->
      json.Marshal v = inl err ->
      turn a m ((GetContainerTags (router.Message.Container m) a).2,
                [Logged err], None)
  | turn_written marathonInfo v js c e :
      GetMarathonInfo (router.Message.Container m)
        (GetContainerTags (router.Message.Container m) a).2
      = Ok marathonInfo ->
      compose m (newDockerInfo m)
        (GetContainerTags (router.Message.Container m) a).1 marathonInfo
      = Ok v ->
      json.Marshal v = inr js ->
      Write (conn (GetContainerTags (router.Message.Container m) a).2)
        (js +:+ String newline EmptyString) = (c, e) ->
      turn a m
        ({| conn := c;
            containerTags :=
              containerTags
                (GetContainerTags (router.Message.Container m) a).2 |},
         Written (js +:+ String newline EmptyString)
         :: match e with
            | Some err => [LoggedFatal err]
            | None => []
            end,
         match e with
         | Some _ => Some Exited
         | None => None
         end).

End Turn.

(** The scanner inside a string literal: the bytes collected and whether
    the last one was an escaping backslash, after reading [s] without
    meeting the closing quote or a control character. *)
Fixpoint instring (raw : string) (escaped : bool) (s : string)
  : option (string * bool) :=
  match s with
  | EmptyString => Some (raw, escaped)
  | String c s' =>
      if escaped then instring (scanner.snoc raw c) false s'
      else if Ascii.eqb c quote then None
      else if Ascii.eqb c backslash then instring (scanner.snoc raw c) true s'
      else if byte_val c <? 32 then None
      else instring (scanner.snoc raw c) false s'
  end.

(** A piece of JSON text that the scanner, between two tokens, turns into
    the tokens [ts] whatever follows it. *)
Definition lexes (s : string) (ts : list scanner.token) : Prop :=
  forall rest,
    scanner.lex_from scanner.LIdle (s +:+ rest)
    = (more ← scanner.lex_from scanner.LIdle rest; Some (ts ++ more)).

Section Reads.
Context {F : Float64}.

(** Tokens that the decoder, where it awaits a value at most [n] levels
    above the nesting limit, turns into the value [v] and puts into the
    enclosing container. *)
Definition parses (n : nat) (ts : list scanner.token) (v : iface) : Prop :=
  forall stack x terr rest,
    Z.of_nat (length stack + n) < json.maxNestingDepth ->
    x = json.XValue \/ x = json.XValueOrEnd ->
    json.parse_from stack x terr (ts ++ rest)
    = match json.put v stack with
      | Some (st, x') => json.parse_from st x' terr rest
      | None => None
      end.

(** JSON text that is read as the value [v]. *)
Definition reads (n : nat) (s : string) (v : iface) : Prop :=
  exists ts, lexes s ts /\ parses n ts v.

End Reads.
(** * Proofs *)

(** ** Strings *)

Lemma append_cons (c : ascii) (a b : string) :
  String c a +:+ b = String c (a +:+ b).
Proof. done. Qed.

Lemma append_nil_l (s : string) : EmptyString +:+ s = s.
Proof. done. Qed.

Lemma append_nil_r (s : string) : s +:+ EmptyString = s.
Proof.
  induction s as [|c s IH]; [done |]. by rewrite append_cons, IH.
Qed.

Lemma append_assoc (a b c : string) : (a +:+ b) +:+ c = a +:+ (b +:+ c).
Proof.
  induction a as [|x a IH]; [done |]. by rewrite !append_cons, IH.
Qed.

Lemma has_byte_app (c : ascii) (a b : string) :
  has_byte c (a +:+ b) = has_byte c a || has_byte c b.
Proof.
  induction a as [|x a IH]; [done |].
  rewrite append_cons. cbn. by rewrite IH, orb_assoc.
Qed.

Lemma prefix_app (p r : string) : String.prefix p (p +:+ r) = true.
Proof.
  induction p as [|c p IH]; [by destruct r |].
  rewrite append_cons. cbn. destruct (ascii_dec c c); [done | congruence].
Qed.

Lemma skip_app (p r : string) : strings.skip (String.length p) (p +:+ r) = r.
Proof. induction p as [|c p IH]; [by destruct r | by rewrite append_cons]. Qed.

Lemma HasPrefix_app (p r : string) : strings.HasPrefix (p +:+ r) p = true.
Proof. apply prefix_app. Qed.

Lemma TrimPrefix_app (p r : string) : strings.TrimPrefix (p +:+ r) p = r.
Proof.
  unfold strings.TrimPrefix. rewrite HasPrefix_app. apply skip_app.
Qed.

Lemma prefix_byte (c a : ascii) (s : string) :
  String.prefix (String c EmptyString) (String a s) = Ascii.eqb a c.
Proof.
  cbn. destruct (ascii_dec c a) as [->|Hne].
  - rewrite Ascii.eqb_refl. by destruct s.
  - symmetry. apply Ascii.eqb_neq. congruence.
Qed.

(** *** [Split] on a one-byte separator *)

Section SplitByte.
Variable c : ascii.
Local Abbreviation sep := (String c EmptyString).

Lemma genSplit_cons (seg s : string) :
  exists x l, strings.genSplit sep 0 seg s = x :: l.
Proof.
  revert seg. induction s as [|a s IH]; intros seg; cbn -[String.prefix].
  - eauto.
  - rewrite prefix_byte. destruct (Ascii.eqb a c); eauto.
Qed.

Lemma concat_cons (x : string) (l : list string) :
  l <> [] -> String.concat sep (x :: l) = x +:+ sep +:+ String.concat sep l.
Proof. destruct l; [done | by intros _]. Qed.

Lemma Join_genSplit (seg s : string) :
  strings.Join (strings.genSplit sep 0 seg s) sep = seg +:+ s.
Proof.
  unfold strings.Join. revert seg.
  induction s as [|a s IH]; intros seg; cbn -[String.prefix String.concat].
  - cbn. by rewrite append_nil_r.
  - rewrite prefix_byte.
    destruct (Ascii.eqb_spec a c) as [->|Hne].
    + destruct (genSplit_cons EmptyString s) as (x & l & Hxl).
      rewrite concat_cons by (rewrite Hxl; done).
      by rewrite IH.
    + rewrite IH. by rewrite append_assoc.
Qed.

Lemma genSplit_no_sep (seg s : string) :
  has_byte c seg = false ->
  Forall (fun x => has_byte c x = false) (strings.genSplit sep 0 seg s).
Proof.
  revert seg. induction s as [|a s IH]; intros seg Hseg;
    cbn -[String.prefix].
  - by constructor.
  - rewrite prefix_byte.
    destruct (Ascii.eqb a c) eqn:Hac.
    + constructor; [done | by apply IH].
    + apply IH. rewrite has_byte_app, Hseg. cbn. by rewrite Hac.
Qed.

Lemma genSplit_absent (seg s : string) :
  has_byte c s = false -> strings.genSplit sep 0 seg s = [seg +:+ s].
Proof.
  revert seg. induction s as [|a s IH]; intros seg Hs;
    cbn -[String.prefix].
  - by rewrite append_nil_r.
  - rewrite prefix_byte. cbn in Hs.
    apply orb_false_iff in Hs as [Hac Hs]. rewrite Hac.
    rewrite IH by done. by rewrite append_assoc.
Qed.

Lemma genSplit_once (seg K V : string) :
  has_byte c K = false -> has_byte c V = false ->
  strings.genSplit sep 0 seg (K +:+ sep +:+ V) = [seg +:+ K; V].
Proof.
  intros HK HV. revert seg HK.
  induction K as [|x K IH]; intros seg HK.
  - rewrite append_nil_l, append_cons, append_nil_l, append_nil_r.
    cbn -[String.prefix]. rewrite prefix_byte, Ascii.eqb_refl.
    cbn -[String.prefix]. by rewrite genSplit_absent.
  - cbn in HK. apply orb_false_iff in HK as [Hx HK].
    rewrite append_cons. cbn -[String.prefix].
    rewrite prefix_byte, Hx, IH by done. by rewrite append_assoc.
Qed.

(** Joining the segments with the separator gives the string back. *)
Lemma Join_Split (s : string) : strings.Join (strings.Split s sep) sep = s.
Proof. apply Join_genSplit. Qed.

(** No segment contains the separator. *)
Lemma Split_no_sep (s : string) :
  Forall (fun x => has_byte c x = false) (strings.Split s sep).
Proof. by apply genSplit_no_sep. Qed.

(** Without a separator there is one segment, the string itself. *)
Lemma Split_absent (s : string) :
  has_byte c s = false -> strings.Split s sep = [s].
Proof. intros Hs. unfold strings.Split. by rewrite genSplit_absent. Qed.

(** One separator, two segments. *)
Lemma Split_once (K V : string) :
  has_byte c K = false -> has_byte c V = false ->
  strings.Split (K +:+ sep +:+ V) sep = [K; V].
Proof. intros HK HV. unfold strings.Split. by rewrite genSplit_once. Qed.

End SplitByte.

(** *** [Replace] of one byte by another, without limit *)

Lemma genReplace_all (c d : ascii) (s : string) :
  strings.genReplace (String c EmptyString) (String d EmptyString) 0 (-1) s
  = map_bytes (fun a => if Ascii.eqb a c then d else a) s.
Proof.
  induction s as [|a s IH]; cbn -[String.prefix]; [done |].
  rewrite prefix_byte. destruct (Ascii.eqb a c); cbn; by rewrite IH.
Qed.

Lemma map_bytes_app (f : ascii -> ascii) (a b : string) :
  map_bytes f (a +:+ b) = map_bytes f a +:+ map_bytes f b.
Proof.
  induction a as [|x a IH]; [done |]. rewrite append_cons. cbn. by rewrite IH.
Qed.

Lemma map_bytes_absent (c d : ascii) (s : string) :
  has_byte c s = false ->
  map_bytes (fun a => if Ascii.eqb a c then d else a) s = s.
Proof.
  induction s as [|a s IH]; cbn; [done |].
  intros [Hac Hs]%orb_false_iff. by rewrite Hac, IH.
Qed.

Lemma map_bytes_gone (c d : ascii) (s : string) :
  c <> d ->
  has_byte c (map_bytes (fun a => if Ascii.eqb a c then d else a) s) = false.
Proof.
  intros Hcd. induction s as [|a s IH]; cbn; [done |].
  rewrite IH, orb_false_r.
  destruct (Ascii.eqb a c) eqn:Hac; [| done].
  apply Ascii.eqb_neq. congruence.
Qed.

(** ** Tags *)

Section Tags.
Context {C : Type}.
Implicit Types (a : @LogstashAdapter C) (c : docker.Container.t).
Implicit Types (env : list string) (e rest : string).

(** Each entry contributes a fixed list of tags, appended to the tags
    so far. *)
Lemma GetContainerTags_body_app e :
  exists ts, forall l,
    GetContainerTags_body (Some l) e = Some (l ++ ts).
Proof.
  unfold GetContainerTags_body.
  destruct (strings.HasPrefix e "LOGSTASH_TAGS=");
    [| destruct (strings.HasPrefix e "MARATHON_APP_LABEL_")].
  - eexists. intros l. reflexivity.
  - eexists. intros l. reflexivity.
  - exists []. intros l. by rewrite app_nil_r.
Qed.

Lemma GetContainerTags_range_app env :
  exists ts, forall l,
    fold_left GetContainerTags_body env (Some l) = Some (l ++ ts).
Proof.
  induction env as [|e env [ts IH]]; cbn.
  - exists []. intros l. by rewrite app_nil_r.
  - destruct (GetContainerTags_body_app e) as [te Hte].
    exists (te ++ ts). intros l. by rewrite Hte, IH, app_assoc.
Qed.

Lemma GetContainerTags_range_split env1 env2 e ts :
  (forall l, GetContainerTags_body (Some l) e = Some (l ++ ts)) ->
  exists t1 t2,
    fold_left GetContainerTags_body env1 (Some []) = Some t1 /\
    fold_left GetContainerTags_body env2 (Some []) = Some t2 /\
    fold_left GetContainerTags_body (env1 ++ e :: env2) (Some [])
    = Some (t1 ++ ts ++ t2).
Proof.
  intros He.
  destruct (GetContainerTags_range_app env1) as [t1 H1].
  destruct (GetContainerTags_range_app env2) as [t2 H2].
  exists t1, t2. rewrite fold_left_app. cbn.
  rewrite !H1, He, !H2. cbn. by rewrite <- app_assoc.
Qed.

Lemma GetContainerTags_miss c a :
  containerTags a !! docker.Container.ID c = None ->
  GetContainerTags c a =
    (fold_left GetContainerTags_body
       (docker.Config.Env (docker.Container.Config c)) (Some []),
     {| conn := conn a;
        containerTags :=
          <[docker.Container.ID c :=
              fold_left GetContainerTags_body
                (docker.Config.Env (docker.Container.Config c)) (Some [])]>
            (containerTags a) |}).
Proof. intros Hmiss. unfold GetContainerTags. by rewrite Hmiss. Qed.

Lemma GetContainerTags_hit c a tags :
  containerTags a !! docker.Container.ID c = Some tags ->
  GetContainerTags c a = (tags, a).
Proof. intros Hhit. unfold GetContainerTags. by rewrite Hhit. Qed.

Lemma body_LOGSTASH_TAGS rest l :
  GetContainerTags_body (Some l) ("LOGSTASH_TAGS=" +:+ rest)
  = Some (l ++ strings.Split rest ",").
Proof.
  unfold GetContainerTags_body.
  by rewrite HasPrefix_app, TrimPrefix_app.
Qed.

Lemma HasPrefix_label_not_tags rest :
  strings.HasPrefix ("MARATHON_APP_LABEL_" +:+ rest) "LOGSTASH_TAGS="
  = false.
Proof. reflexivity. Qed.

Lemma body_MARATHON_APP_LABEL rest l :
  GetContainerTags_body (Some l) ("MARATHON_APP_LABEL_" +:+ rest)
  = Some (l ++ [strings.Replace rest "=" "_" (-1)]).
Proof.
  unfold GetContainerTags_body.
  by rewrite HasPrefix_label_not_tags, HasPrefix_app, TrimPrefix_app.
Qed.

(** C2. On a cache miss, an entry [LOGSTASH_TAGS=rest] anywhere in the
    environment contributes exactly the segments of [rest] between
    commas, placed between the tags of the entries before it and the tags
    of the entries after it; the segments joined by commas are [rest]
    itself, byte for byte, and none contains a comma. *)
Theorem C2_logstash_tags_split c a env1 rest env2 :
  containerTags a !! docker.Container.ID c = None ->
  docker.Config.Env (docker.Container.Config c)
    = env1 ++ ("LOGSTASH_TAGS=" +:+ rest) :: env2 ->
  exists t1 t2,
    fold_left GetContainerTags_body env1 (Some []) = Some t1 /\
    fold_left GetContainerTags_body env2 (Some []) = Some t2 /\
    (GetContainerTags c a).1 = Some (t1 ++ strings.Split rest "," ++ t2) /\
    strings.Join (strings.Split rest ",") "," = rest /\
    Forall (fun seg => has_byte "," seg = false) (strings.Split rest ",").
Proof.
  intros Hmiss Henv.
  destruct (GetContainerTags_range_split env1 env2
              ("LOGSTASH_TAGS=" +:+ rest) (strings.Split rest ","))
    as (t1 & t2 & H1 & H2 & H12).
  { intros l. apply body_LOGSTASH_TAGS. }
  exists t1, t2. repeat split; try done.
  - rewrite GetContainerTags_miss by done. cbn. by rewrite Henv.
  - apply Join_Split.
  - apply Split_no_sep.
Qed.

(** C3 (amended). A label entry contributes one tag: the entry without
    its prefix, with every [=] turned into [_]. The tag therefore has no
    [=] left, and for an entry [MARATHON_APP_LABEL_<K>=<V>] whose [K] and
    [V] contain no [=] it is [<K>_<V>]. *)
Theorem C3_label_tag_replaces_every_equals c a env1 rest env2 :
  containerTags a !! docker.Container.ID c = None ->
  docker.Config.Env (docker.Container.Config c)
    = env1 ++ ("MARATHON_APP_LABEL_" +:+ rest) :: env2 ->
  let tag := map_bytes (fun b => if Ascii.eqb b "=" then "_"%char else b)
               rest in
  (exists t1 t2,
     fold_left GetContainerTags_body env1 (Some []) = Some t1 /\
     fold_left GetContainerTags_body env2 (Some []) = Some t2 /\
     (GetContainerTags c a).1 = Some (t1 ++ [tag] ++ t2)) /\
  has_byte "=" tag = false /\
  (forall K V, rest = K +:+ "=" +:+ V ->
     has_byte "=" K = false -> has_byte "=" V = false ->
     tag = K +:+ "_" +:+ V).
Proof.
  intros Hmiss Henv tag. repeat split.
  - destruct (GetContainerTags_range_split env1 env2
                ("MARATHON_APP_LABEL_" +:+ rest) [tag])
      as (t1 & t2 & H1 & H2 & H12).
    { intros l. rewrite body_MARATHON_APP_LABEL. unfold strings.Replace.
      cbn [String.eqb Ascii.eqb Bool.eqb orb Z.eqb]. cbn.
      by rewrite genReplace_all. }
    exists t1, t2. repeat split; try done.
    rewrite GetContainerTags_miss by done. cbn. by rewrite Henv.
  - by apply map_bytes_gone.
  - intros K V -> HK HV. subst tag.
    rewrite !map_bytes_app.
    rewrite (map_bytes_absent _ _ K), (map_bytes_absent _ _ V) by done.
    reflexivity.
Qed.

(** C6. A cached entry is returned as it is, whatever the environment,
    and the adapter is unchanged; without an entry the environment is
    scanned, the result stored under the container ID and returned.
    Hence after one call every further call for that ID returns the same
    tags and leaves the adapter alone, even for a container whose
    environment differs: the environment is not read again. *)
Theorem C6_tag_cache c a :
  (forall tags,
     containerTags a !! docker.Container.ID c = Some tags ->
     GetContainerTags c a = (tags, a)) /\
  (containerTags a !! docker.Container.ID c = None ->
   let tags := fold_left GetContainerTags_body
                 (docker.Config.Env (docker.Container.Config c))
                 (Some []) in
   GetContainerTags c a =
     (tags,
      {| conn := conn a;
         containerTags :=
           <[docker.Container.ID c := tags]> (containerTags a) |})) /\
  (forall c',
     docker.Container.ID c' = docker.Container.ID c ->
     GetContainerTags c' (GetContainerTags c a).2
     = GetContainerTags c a).
Proof.
  split; [| split].
  - intros tags. apply GetContainerTags_hit.
  - intros Hmiss. by apply GetContainerTags_miss.
  - intros c' Hid.
    destruct (containerTags a !! docker.Container.ID c) as [tags|] eqn:Hc.
    + rewrite (GetContainerTags_hit c a tags) by done. cbn.
      apply GetContainerTags_hit. by rewrite Hid.
    + rewrite (GetContainerTags_miss c a) by done. cbn.
      apply GetContainerTags_hit. cbn. rewrite Hid.
      apply lookup_insert_eq.
Qed.

Lemma GetContainerTags_range_none env l :
  Forall (fun e => strings.HasPrefix e "LOGSTASH_TAGS=" = false /\
                   strings.HasPrefix e "MARATHON_APP_LABEL_" = false) env ->
  fold_left GetContainerTags_body env (Some l) = Some l.
Proof.
  induction 1 as [|e env [H1 H2] _ IH]; cbn; [done |].
  unfold GetContainerTags_body at 2. by rewrite H1, H2.
Qed.

(** C10. On a cache miss, an entry that is exactly [LOGSTASH_TAGS=]
    contributes one tag, the empty string; and when no entry of the
    environment has a tag prefix the result is the empty, allocated
    slice (not nil), which is what the cache then holds for the
    container. *)
Theorem C10_empty_value_and_no_tags c a :
  containerTags a !! docker.Container.ID c = None ->
  (forall env1 env2,
     docker.Config.Env (docker.Container.Config c)
       = env1 ++ "LOGSTASH_TAGS=" :: env2 ->
     exists t1 t2,
       fold_left GetContainerTags_body env1 (Some []) = Some t1 /\
       fold_left GetContainerTags_body env2 (Some []) = Some t2 /\
       (GetContainerTags c a).1 = Some (t1 ++ [EmptyString] ++ t2)) /\
  (Forall (fun e => strings.HasPrefix e "LOGSTASH_TAGS=" = false /\
                    strings.HasPrefix e "MARATHON_APP_LABEL_" = false)
     (docker.Config.Env (docker.Container.Config c)) ->
   (GetContainerTags c a).1 = Some [] /\
   containerTags (GetContainerTags c a).2 !! docker.Container.ID c
   = Some (Some [])).
Proof.
  intros Hmiss. split.
  - intros env1 env2 Henv.
    destruct (GetContainerTags_range_split env1 env2
                "LOGSTASH_TAGS=" [EmptyString])
      as (t1 & t2 & H1 & H2 & H12).
    { intros l. reflexivity. }
    exists t1, t2. repeat split; try done.
    rewrite GetContainerTags_miss by done. cbn. by rewrite Henv.
  - intros Hnone. rewrite GetContainerTags_miss by done. cbn.
    rewrite GetContainerTags_range_none by done.
    split; [done | apply lookup_insert_eq].
Qed.

End Tags.

(** ** The encoder writes no newline *)

Lemma escapeByte_no_newline (c : ascii) :
  has_byte newline (json.escapeByte c) = false.
Proof. destruct c as [[] [] [] [] [] [] [] []]; reflexivity. Qed.

Lemma high_not_newline (c : ascii) :
  0x80 <= byte_val c -> Ascii.eqb c newline = false.
Proof.
  intros Hc. apply Ascii.eqb_neq. intros ->. vm_compute in Hc. by apply Hc.
Qed.

Lemma continuation_high (b : Z) : utf8.continuation b = true -> 0x80 <= b.
Proof. unfold utf8.continuation. lia. Qed.

(** After the first byte of a valid multi-byte sequence come its
    continuation bytes. *)
Lemma DecodeRune_high (c : ascii) (s1 : string) (r : Z) (size : nat) :
  utf8.DecodeRuneInString (String c s1) = (r, size) ->
  (r =? utf8.RuneError) && (size =? 1)%nat = false ->
  high_prefix (size - 1) s1.
Proof.
  unfold utf8.DecodeRuneInString. intros Hdec Hvalid.
  repeat case_match; simplify_eq; cbn in *; try done;
    repeat match goal with
    | H : _ && _ = true |- _ => apply andb_true_iff in H as [? ?]
    | H : utf8.continuation _ = true |- _ => apply continuation_high in H
    end;
    repeat split; try done; try lia.
Qed.

Lemma appendString_no_newline (s : string) :
  forall pending copy,
    (copy = true -> high_prefix pending s) ->
    has_byte newline (json.appendString pending copy s) = false.
Proof.
  induction s as [|c s IH]; intros pending copy Hpre; [done |].
  cbn [json.appendString]. destruct pending as [|k].
  - destruct (byte_val c <? 128) eqn:Hascii.
    + rewrite has_byte_app, escapeByte_no_newline. cbn. by apply IH.
    + destruct (utf8.DecodeRuneInString (String c s)) as [r size] eqn:Hdec.
      destruct ((r =? utf8.RuneError) && (size =? 1)%nat) eqn:Hbad.
      * rewrite has_byte_app. cbn. by apply IH.
      * pose proof (DecodeRune_high c s r size Hdec Hbad) as Hhigh.
        destruct ((r =? 8232) || (r =? 8233)) eqn:Hsep.
        -- rewrite has_byte_app. cbn [has_byte orb]. rewrite IH by done.
           apply orb_true_iff in Hsep as [->%Z.eqb_eq | ->%Z.eqb_eq];
             reflexivity.
        -- cbn [has_byte]. rewrite high_not_newline by lia. by apply IH.
  - destruct copy.
    + destruct (Hpre eq_refl) as [Hc Hk].
      cbn [has_byte]. rewrite high_not_newline by done. by apply IH.
    + by apply IH.
Qed.

Lemma encodeString_no_newline (s : string) :
  has_byte newline (json.encodeString s) = false.
Proof.
  unfold json.encodeString. cbn [has_byte].
  rewrite has_byte_app, appendString_no_newline by done. reflexivity.
Qed.

Lemma concat_no_byte (c : ascii) (sep : string) (l : list string) :
  has_byte c sep = false ->
  Forall (fun x => has_byte c x = false) l ->
  has_byte c (String.concat sep l) = false.
Proof.
  intros Hsep. induction 1 as [|x l Hx Hl IH]; [done |].
  destruct l as [|y l]; [done |].
  change (String.concat sep (x :: y :: l))
    with (x +:+ sep +:+ String.concat sep (y :: l)).
  by rewrite !has_byte_app, Hx, Hsep, IH.
Qed.

Lemma array_no_newline (elems : list string) :
  Forall (fun x => has_byte newline x = false) elems ->
  has_byte newline (json.array elems) = false.
Proof.
  intros Hl. unfold json.array.
  rewrite append_cons, append_nil_l. cbn [has_byte].
  rewrite has_byte_app, concat_no_byte by done. reflexivity.
Qed.

Lemma object_no_newline (fields : list (string * string)) :
  Forall (fun kv => has_byte newline kv.2 = false) fields ->
  has_byte newline (json.object fields) = false.
Proof.
  intros Hl. unfold json.object.
  rewrite append_cons, append_nil_l. cbn [has_byte].
  rewrite has_byte_app, concat_no_byte; [reflexivity | done |].
  apply Forall_map. eapply Forall_impl; [exact Hl |].
  intros [k v] Hv. unfold json.field.
  by rewrite !has_byte_app, encodeString_no_newline, Hv.
Qed.

Lemma sortedObject_no_newline (fields : list (string * string)) :
  Forall (fun kv => has_byte newline kv.2 = false) fields ->
  has_byte newline (json.sortedObject fields) = false.
Proof.
  intros Hl. apply object_no_newline.
  by rewrite merge_sort_Permutation.
Qed.

Lemma encodeStrings_no_newline (l : slice string) :
  has_byte newline (json.encodeStrings l) = false.
Proof.
  destruct l as [l|]; [| done]. apply array_no_newline.
  apply Forall_map, Forall_forall. intros x _. apply encodeString_no_newline.
Qed.

Lemma encodeStringMap_no_newline (m : gmap string string) :
  has_byte newline (json.encodeStringMap m) = false.
Proof.
  apply sortedObject_no_newline, Forall_forall. intros [k v] Hkv.
  apply elem_of_map_to_list in Hkv. rewrite lookup_fmap in Hkv.
  destruct (m !! k) as [x|]; simplify_eq/=. apply encodeString_no_newline.
Qed.

Lemma encodeDockerInfo_no_newline (d : DockerInfo.t) :
  has_byte newline (json.encodeDockerInfo d) = false.
Proof.
  apply object_no_newline. repeat constructor; apply encodeString_no_newline.
Qed.

Lemma encodeMessage_no_newline (msg : LogstashMessage.t) :
  has_byte newline (json.encodeMessage msg) = false.
Proof.
  apply object_no_newline. rewrite !Forall_app. repeat split.
  - repeat constructor; cbn [snd];
      auto using encodeString_no_newline, encodeDockerInfo_no_newline.
  - destruct (LogstashMessage.Marathon msg); repeat constructor.
    apply encodeStringMap_no_newline.
  - repeat constructor. apply encodeStrings_no_newline.
Qed.

(** ** Induction on dynamic values *)

Section IfaceInd.
Context {F : Float64}.

Lemma iface_size_slice (l : list iface) (x : iface) :
  x ∈ l -> (iface_size x < iface_size (ISlice l))%nat.
Proof.
  cbn [iface_size]. induction 1 as [x l|x y l _ IH]; cbn [foldr]; lia.
Qed.

Lemma iface_size_map (m : gmap string iface) (k : string) (x : iface) :
  m !! k = Some x -> (iface_size x < iface_size (IMap m))%nat.
Proof.
  intros Hk. cbn [iface_size].
  rewrite (map_fold_delete_L _ _ k x m); [lia | | done].
  intros. lia.
Qed.

Lemma iface_ind_nested (P : iface -> Prop) :
  P INil ->
  (forall b, P (IBool b)) ->
  (forall f, P (IFloat64 f)) ->
  (forall s, P (IString s)) ->
  (forall l, Forall P l -> P (ISlice l)) ->
  (forall m, map_Forall (fun _ x => P x) m -> P (IMap m)) ->
  (forall d, P (IDockerInfo d)) ->
  (forall l, P (IStrings l)) ->
  (forall m, P (IStringMap m)) ->
  (forall msg, P (IMessage msg)) ->
  forall v, P v.
Proof.
  intros HNil HBool HFloat HString HSlice HMap HDocker HStrings HStringMap
    HMessage v.
  remember (iface_size v) as n eqn:Hn. revert v Hn.
  induction n as [n IH] using lt_wf_ind. intros v ->.
  destruct v; auto.
  - apply HSlice, Forall_forall. intros x Hx.
    eapply IH; [by apply iface_size_slice | done].
  - apply HMap. intros k x Hk.
    eapply IH; [by eapply iface_size_map | done].
Qed.

End IfaceInd.

(** A number literal has no newline in it. *)
Lemma num_run_bad (s : string) : scanner.num_run scanner.NBad s = scanner.NBad.
Proof. induction s as [|c s IH]; [done | exact IH]. Qed.

Lemma num_run_newline (st : scanner.numstate) (s : string) :
  has_byte newline s = true -> scanner.num_run st s = scanner.NBad.
Proof.
  revert st. induction s as [|c s IH]; intros st Hs; [done |].
  cbn [scanner.num_run]. cbn in Hs.
  destruct (Ascii.eqb_spec c newline) as [->|_].
  - replace (scanner.num_step st newline) with scanner.NBad
      by (by destruct st).
    apply num_run_bad.
  - by apply IH.
Qed.

Lemma validNumber_no_newline (s : string) :
  scanner.validNumber s = true -> has_byte newline s = false.
Proof.
  intros Hvalid. destruct (has_byte newline s) eqn:Hs; [| done].
  unfold scanner.validNumber in Hvalid.
  by rewrite (num_run_newline _ _ Hs) in Hvalid.
Qed.

Section EncodeLine.
Context {F : Float64}.

Lemma FormatFloat_line (f : float64) (s : string) :
  FormatFloat f = Some s -> has_byte newline s = false.
Proof. intros Hs. by eapply validNumber_no_newline, FormatFloat_number. Qed.

Lemma encode_no_newline (v : iface) :
  forall js, json.encode v = Some js -> has_byte newline js = false.
Proof.
  induction v as [|b|f|s|l IH|m IH|d|l|m|msg] using iface_ind_nested;
    intros js Hjs; cbn [json.encode] in Hjs.
  - by simplify_eq.
  - simplify_eq. by destruct b.
  - by eapply FormatFloat_line.
  - simplify_eq. apply encodeString_no_newline.
  - apply fmap_Some in Hjs as (elems & Helems & ->).
    apply array_no_newline. revert elems Helems.
    induction IH as [|x l Hx _ IHl]; intros elems Helems; cbn in Helems.
    + by simplify_eq.
    + destruct (json.encode x) as [s|] eqn:Hs; [| done]. cbn in Helems.
      apply fmap_Some in Helems as (rest & Hrest & ->).
      constructor; [by apply Hx | by apply IHl].
  - apply fmap_Some in Hjs as (fields & Hfields & ->).
    apply sortedObject_no_newline. revert fields Hfields IH.
    apply (map_fold_weak_ind
             (fun acc m' =>
                forall fields, acc = Some fields ->
                  map_Forall (fun _ x =>
                    forall js, json.encode x = Some js ->
                      has_byte newline js = false) m' ->
                  Forall (fun kv => has_byte newline kv.2 = false) fields)).
    + intros fields ? _. by simplify_eq.
    + intros k x m' acc Hk IHm fields Hfields Hall.
      apply map_Forall_insert in Hall as [Hx Hall]; [| done].
      destruct (json.encode x) as [s|] eqn:Hs; [| done]. cbn in Hfields.
      apply fmap_Some in Hfields as (rest & -> & ->).
      constructor; [by apply Hx | by apply IHm].
  - simplify_eq. apply encodeDockerInfo_no_newline.
  - simplify_eq. apply encodeStrings_no_newline.
  - simplify_eq. apply encodeStringMap_no_newline.
  - simplify_eq. apply encodeMessage_no_newline.
Qed.

Lemma Marshal_no_newline (v : iface) (js : string) :
  json.Marshal v = inr js -> has_byte newline js = false.
Proof.
  unfold json.Marshal. destruct (json.encode v) as [s|] eqn:Hs; [| done].
  intros [= <-]. by eapply encode_no_newline.
Qed.

End EncodeLine.

(** ** Scheduler metadata *)

Section Marathon.
Context {C : Type}.
Implicit Types (a : @LogstashAdapter C) (c : docker.Container.t).

Lemma GetMarathonInfo_body_no_separator rest info :
  has_byte "=" rest = false ->
  GetMarathonInfo_body info ("MARATHON_APP_LABEL_" +:+ rest)
  = Panic "index out of range".
Proof.
  intros Hrest. unfold GetMarathonInfo_body.
  rewrite HasPrefix_app, TrimPrefix_app.
  by rewrite (Split_absent "=" rest Hrest).
Qed.

Lemma GetMarathonInfo_range_no_separator env1 rest env2 info :
  has_byte "=" rest = false ->
  exists msg,
    GetMarathonInfo_range
      (env1 ++ ("MARATHON_APP_LABEL_" +:+ rest) :: env2) info
    = Panic msg.
Proof.
  intros Hrest. revert info.
  induction env1 as [|e env1 IH]; intros info;
    cbn [app GetMarathonInfo_range].
  - rewrite GetMarathonInfo_body_no_separator by done. by eexists.
  - destruct (GetMarathonInfo_body info e) as [info'|msg]; cbn.
    + apply IH.
    + by eexists.
Qed.

Lemma GetMarathonInfo_no_separator c a env1 rest env2 :
  docker.Config.Env (docker.Container.Config c)
    = env1 ++ ("MARATHON_APP_LABEL_" +:+ rest) :: env2 ->
  has_byte "=" rest = false ->
  exists msg, GetMarathonInfo c a = Panic msg.
Proof.
  intros Henv Hrest. unfold GetMarathonInfo. rewrite Henv.
  by apply GetMarathonInfo_range_no_separator.
Qed.

(** Entries without the label prefix leave the label map alone: the
    identity, version and resource entries are not read. *)
Lemma GetMarathonInfo_range_other env info :
  Forall (fun e => strings.HasPrefix e "MARATHON_APP_LABEL_" = false) env ->
  GetMarathonInfo_range env info = Ok info.
Proof.
  induction 1 as [|e env He _ IH]; cbn [GetMarathonInfo_range]; [done |].
  unfold GetMarathonInfo_body. by rewrite He.
Qed.

Lemma GetMarathonInfo_other c a :
  Forall (fun e => strings.HasPrefix e "MARATHON_APP_LABEL_" = false)
    (docker.Config.Env (docker.Container.Config c)) ->
  GetMarathonInfo c a = Ok ∅.
Proof. apply GetMarathonInfo_range_other. Qed.

(** A well-formed label entry sets its key, to the text up to the next
    [=]. *)
Lemma GetMarathonInfo_body_label K V info :
  has_byte "=" K = false -> has_byte "=" V = false ->
  GetMarathonInfo_body info ("MARATHON_APP_LABEL_" +:+ K +:+ "=" +:+ V)
  = Ok (<[K := V]> info).
Proof.
  intros HK HV. unfold GetMarathonInfo_body.
  rewrite HasPrefix_app, TrimPrefix_app.
  by rewrite (Split_once "=" K V HK HV).
Qed.

End Marathon.

(** ** Composing the record *)

Section Compose.
Context {F : Float64}.
Implicit Types (m : router.Message.t) (dockerInfo : DockerInfo.t).
Implicit Types (tags : slice string) (marathonInfo : gmap string string).

(** A payload that does not decode is wrapped in a new message. *)
Lemma compose_fallback m dockerInfo tags marathonInfo err :
  json.Unmarshal (router.Message.Data m) = inl err ->
  compose m dockerInfo tags marathonInfo =
    Ok (IMessage
          {| LogstashMessage.Message := router.Message.Data m;
             LogstashMessage.Stream := router.Message.Source m;
             LogstashMessage.Docker := dockerInfo;
             LogstashMessage.Marathon := Some marathonInfo;
             LogstashMessage.Tags := tags |}).
Proof. intros Herr. unfold compose. by rewrite Herr. Qed.

(** A decoded object keeps its entries, except that the four reserved
    keys are set. *)
Lemma compose_merged m dockerInfo tags marathonInfo data :
  json.Unmarshal (router.Message.Data m) = inr (Some data) ->
  compose m dockerInfo tags marathonInfo =
    Ok (IMap (<["marathon" := IStringMap marathonInfo]>
                (<["stream" := IString (router.Message.Source m)]>
                   (<["tags" := IStrings tags]>
                      (<["docker" := IDockerInfo dockerInfo]> data))))).
Proof. intros Hdata. unfold compose. by rewrite Hdata. Qed.

(** JSON [null] decodes to a nil map, and the first assignment panics. *)
Lemma compose_nil_map m dockerInfo tags marathonInfo :
  json.Unmarshal (router.Message.Data m) = inr None ->
  compose m dockerInfo tags marathonInfo
  = Panic "assignment to entry in nil map".
Proof. intros Hnil. unfold compose. by rewrite Hnil. Qed.

Lemma merged_lookup (data : gmap string iface) (vd vt vs vm : iface) :
  let d := <["marathon" := vm]> (<["stream" := vs]>
             (<["tags" := vt]> (<["docker" := vd]> data))) in
  d !! "docker" = Some vd /\ d !! "tags" = Some vt /\
  d !! "stream" = Some vs /\ d !! "marathon" = Some vm /\
  (forall k, k <> "docker" -> k <> "tags" -> k <> "stream" ->
     k <> "marathon" -> d !! k = data !! k).
Proof.
  intros d. subst d. repeat split.
  - by do 3 (rewrite lookup_insert_ne by done); rewrite lookup_insert_eq.
  - by do 2 (rewrite lookup_insert_ne by done); rewrite lookup_insert_eq.
  - by rewrite lookup_insert_ne by done; rewrite lookup_insert_eq.
  - by rewrite lookup_insert_eq.
  - intros k ? ? ? ?. by do 4 (rewrite lookup_insert_ne by done).
Qed.

End Compose.

(** ** The forwarding loop *)

Section Forwarding.
Context {F : Float64} {C : Type} `{Conn C}.
Implicit Types (a : @LogstashAdapter C) (m : router.Message.t).
Implicit Types (logstream : list router.Message.t).

Lemma Stream_cons a m logstream :
  Stream a (m :: logstream) =
    match Stream_body a m with
    | (a', evs, Some e) => {| events := evs; adapter := a'; ended := e |}
    | (a', evs, None) =>
        {| events := evs ++ events (Stream a' logstream);
           adapter := adapter (Stream a' logstream);
           ended := ended (Stream a' logstream) |}
    end.
Proof. cbn [Stream]. by destruct (Stream_body a m) as [[a' evs] [e|]]. Qed.

(** A panic while the metadata is read or the record composed ends the
    run before anything is written for the message. *)
Lemma Stream_body_panic a m tags a1 msg :
  GetContainerTags (router.Message.Container m) a = (tags, a1) ->
  (marathonInfo ← GetMarathonInfo (router.Message.Container m) a1;
   compose m (newDockerInfo m) tags marathonInfo) = Panic msg ->
  Stream_body a m = (a1, [], Some (Panicked msg)).
Proof. intros Htags Hpanic. unfold Stream_body. by rewrite Htags, Hpanic. Qed.

Lemma Stream_body_composed a m tags a1 marathonInfo v :
  GetContainerTags (router.Message.Container m) a = (tags, a1) ->
  GetMarathonInfo (router.Message.Container m) a1 = Ok marathonInfo ->
  compose m (newDockerInfo m) tags marathonInfo = Ok v ->
  Stream_body a m =
    match json.Marshal v with
    | inl err => (a1, [Logged err], None)
    | inr js =>
        let buf := js +:+ String newline EmptyString in
        match Write (conn a1) buf with
        | (c, Some e) =>
            ({| conn := c; containerTags := containerTags a1 |},
             [Written buf; LoggedFatal e], Some Exited)
        | (c, None) =>
            ({| conn := c; containerTags := containerTags a1 |},
             [Written buf], None)
        end
    end.
Proof.
  intros Htags Hinfo Hv. unfold Stream_body.
  rewrite Htags, Hinfo. cbn. rewrite Hv.
  destruct (json.Marshal v) as [err|js]; [done |].
  cbn. by destruct (Write _ _) as [c [e|]].
Qed.

(** Whatever is written for a message is the encoding of the record
    composed for it, followed by a newline. *)
Ltac written_in H :=
  repeat (apply elem_of_cons in H as [H|H]; [by simplify_eq |]);
  by apply elem_of_nil in H.

Lemma Stream_body_written a m a' evs stop buf :
  Stream_body a m = (a', evs, stop) ->
  Written buf ∈ evs ->
  exists js tags marathonInfo v,
    buf = js +:+ String newline EmptyString /\
    compose m (newDockerInfo m) tags marathonInfo = Ok v /\
    json.Marshal v = inr js.
Proof.
  intros Hbody Hbuf.
  destruct (GetContainerTags (router.Message.Container m) a)
    as [tags a1] eqn:Htags.
  destruct (GetMarathonInfo (router.Message.Container m) a1)
    as [marathonInfo|msg] eqn:Hinfo.
  2:{ rewrite (Stream_body_panic a m tags a1 msg) in Hbody
        by (done || by rewrite Hinfo).
      simplify_eq. by apply elem_of_nil in Hbuf. }
  destruct (compose m (newDockerInfo m) tags marathonInfo)
    as [v|msg] eqn:Hv.
  2:{ rewrite (Stream_body_panic a m tags a1 msg) in Hbody
        by (done || by rewrite Hinfo).
      simplify_eq. by apply elem_of_nil in Hbuf. }
  rewrite (Stream_body_composed a m tags a1 marathonInfo v) in Hbody
    by done.
  destruct (json.Marshal v) as [err|js] eqn:Hjs.
  { simplify_eq. written_in Hbuf. }
  exists js, tags, marathonInfo, v. repeat split; try done.
  cbn in Hbody. destruct (Write _ _) as [c [e|]]; simplify_eq.
  - apply elem_of_cons in Hbuf as [Hbuf|Hbuf]; [by simplify_eq |].
    written_in Hbuf.
  - apply elem_of_cons in Hbuf as [Hbuf|Hbuf]; [by simplify_eq |].
    written_in Hbuf.
Qed.

Lemma Stream_written a logstream buf :
  Written buf ∈ events (Stream a logstream) ->
  exists m js tags marathonInfo v,
    m ∈ logstream /\
    buf = js +:+ String newline EmptyString /\
    compose m (newDockerInfo m) tags marathonInfo = Ok v /\
    json.Marshal v = inr js.
Proof.
  revert a. induction logstream as [|m rest IH]; intros a Hbuf.
  { cbn in Hbuf. by apply elem_of_nil in Hbuf. }
  rewrite Stream_cons in Hbuf.
  destruct (Stream_body a m) as [[a' evs] stop] eqn:Hbody.
  assert (Written buf ∈ evs \/ Written buf ∈ events (Stream a' rest))
    as [Hhere|Hlater].
  { destruct stop; cbn in Hbuf; [by left | by apply elem_of_app]. }
  - destruct (Stream_body_written _ _ _ _ _ _ Hbody Hhere)
      as (js & tags & marathonInfo & v & ? & ? & ?).
    exists m, js, tags, marathonInfo, v. repeat split; try done.
    apply list_elem_of_here.
  - destruct (IH _ Hlater) as (m' & js & tags & marathonInfo & v & ? & ?).
    exists m', js, tags, marathonInfo, v. split; [| done].
    by apply list_elem_of_further.
Qed.

End Forwarding.

(** ** What the encoder writes for a map *)

Section EncodeFields.
Context {F : Float64}.

(** Every entry of an encoded map is a field of the object written. *)
Lemma encode_map_fields (d : gmap string iface) (js : string) :
  json.encode (IMap d) = Some js ->
  exists fields,
    js = json.object fields /\
    forall k v, d !! k = Some v ->
      exists s, json.encode v = Some s /\ (k, s) ∈ fields.
Proof.
  cbn [json.encode]. intros (fields & Hfields & ->)%fmap_Some.
  exists (merge_sort json.key_le fields). split; [done |].
  intros k v Hk.
  cut (exists s, json.encode v = Some s /\ (k, s) ∈ fields).
  { intros (s & ? & ?). exists s. by rewrite merge_sort_Permutation. }
  revert fields Hfields k v Hk.
  apply (map_fold_weak_ind
           (fun acc m' =>
              forall fields, acc = Some fields ->
                forall k v, m' !! k = Some v ->
                  exists s, json.encode v = Some s /\ (k, s) ∈ fields)).
  - intros fields _ k v Hk. by rewrite lookup_empty in Hk.
  - intros i x m' acc Hi IH fields Hfields k v Hk.
    destruct (json.encode x) as [sx|] eqn:Hx; [| done]. cbn in Hfields.
    apply fmap_Some in Hfields as (rest & -> & ->).
    destruct (decide (i = k)) as [->|Hne].
    + rewrite lookup_insert_eq in Hk. simplify_eq.
      exists sx. split; [done | apply list_elem_of_here].
    + rewrite lookup_insert_ne in Hk by done.
      destruct (IH rest eq_refl k v Hk) as (s & ? & ?).
      exists s. split; [done | by apply list_elem_of_further].
Qed.

End EncodeFields.

(** ** The claims about records and forwarding *)

(** C1. A message whose payload is the JSON text [null] decodes without
    error into a nil map; the assignment of the [docker] entry then panics,
    so no record is produced, nothing is written, and the messages after it
    are never read. *)
Theorem C1_null_payload_panics :
  json.Unmarshal (F := decimalFloat) "null" = inr None /\
  compose (F := decimalFloat) (message "c1" [] "null")
    (newDockerInfo (message "c1" [] "null")) (Some []) ∅
  = Panic "assignment to entry in nil map" /\
  events (Stream (F := decimalFloat) (H := quotaConn) (newAdapter 9%nat)
            [message "c1" [] "null"; message "c1" [] "hello"]) = [] /\
  ended (Stream (F := decimalFloat) (H := quotaConn) (newAdapter 9%nat)
           [message "c1" [] "null"; message "c1" [] "hello"])
  = Panicked "assignment to entry in nil map".
Proof.
  split; [reflexivity |]. split; [reflexivity |].
  split; reflexivity.
Qed.

(** C3 (counterexample). For [MARATHON_APP_LABEL_K=a=b] the tag is
    [K_a_b], not the [K_a=b] that replacing only the first [=] gives. *)
Lemma C3_counterexample_second_equals :
  (GetContainerTags (container "c1" ["MARATHON_APP_LABEL_K=a=b"])
     (newAdapter tt)).1 = Some ["K_a_b"] /\
  spec_label_tag "MARATHON_APP_LABEL_K=a=b" = "K_a=b" /\
  (GetContainerTags (container "c1" ["MARATHON_APP_LABEL_K=a=b"])
     (newAdapter tt)).1
  <> Some [spec_label_tag "MARATHON_APP_LABEL_K=a=b"].
Proof.
  split; [reflexivity |]. split; [reflexivity |]. discriminate.
Qed.

(** C4. [GetMarathonInfo], which [Stream] calls, returns the empty label
    map for an environment that carries the identity, the version and the
    three resources, and the line written for a container with
    [MARATHON_APP_ID=/svc] has an empty [marathon] object;
    [GetMarathonData], which has a case for each facet, panics on the first
    resource or label entry because the maps of a zero [MarathonData] are
    nil, and gets through identity and version only. *)
Theorem C4_scheduler_facets_not_populated :
  events (Stream (F := decimalFloat) (H := quotaConn) (newAdapter 9%nat)
            [message "c1" ["LOGSTASH_TAGS=prod,web"; "MARATHON_APP_ID=/svc"]
               "hello"])
  = [Written helloLine] /\
  GetMarathonInfo
    (container "c1"
       ["MARATHON_APP_ID=/flapjack-notifier";
        "MARATHON_APP_VERSION=2016-10-20T13:25:13.627Z";
        "MARATHON_APP_RESOURCE_CPUS=0.01";
        "MARATHON_APP_RESOURCE_MEM=128.0";
        "MARATHON_APP_RESOURCE_DISK=0.0"])
    (newAdapter tt) = Ok ∅ /\
  GetMarathonData (container "c1" ["MARATHON_APP_RESOURCE_CPUS=0.01"])
  = Panic "assignment to entry in nil map" /\
  GetMarathonData (container "c1" ["MARATHON_APP_LABEL_ENVIRONMENT=prod"])
  = Panic "assignment to entry in nil map" /\
  GetMarathonData
    (container "c1"
       ["MARATHON_APP_ID=/flapjack-notifier"; "MARATHON_APP_VERSION=1.6"])
  = Ok {| MarathonData.Version := "1.6";
          MarathonData.Resource := None;
          MarathonData.ID := "/flapjack-notifier";
          MarathonData.Label := None;
          MarathonData.Image := EmptyString |}.
Proof.
  split; [reflexivity |]. split; [reflexivity |].
  split; [reflexivity |]. split; reflexivity.
Qed.

Section ForwardingClaims.
Context {F : Float64} {C : Type} `{Conn C}.
Implicit Types (a : @LogstashAdapter C) (m : router.Message.t).
Implicit Types (logstream : list router.Message.t).

(** C5. A label entry without [=] makes [GetMarathonInfo] panic on
    [kv[1]], wherever the entry stands in the environment; [Stream] calls
    it for every message, so the run ends there with nothing written. *)
Theorem C5_label_without_separator_panics a m logstream env1 rest env2 :
  docker.Config.Env (docker.Container.Config (router.Message.Container m))
    = env1 ++ ("MARATHON_APP_LABEL_" +:+ rest) :: env2 ->
  has_byte "=" rest = false ->
  exists msg,
    GetMarathonInfo (router.Message.Container m) a = Panic msg /\
    events (Stream a (m :: logstream)) = [] /\
    ended (Stream a (m :: logstream)) = Panicked msg.
Proof.
  intros Henv Hrest.
  destruct (GetMarathonInfo_range_no_separator env1 rest env2 ∅ Hrest)
    as [msg Hmsg].
  exists msg.
  assert (forall a', GetMarathonInfo (router.Message.Container m) a'
                     = Panic msg) as Hpanic.
  { intros a'. unfold GetMarathonInfo. by rewrite Henv. }
  split; [apply Hpanic |].
  rewrite Stream_cons.
  destruct (GetContainerTags (router.Message.Container m) a)
    as [tags a1] eqn:Htags.
  rewrite (Stream_body_panic a m tags a1 msg); [done | done |].
  by rewrite Hpanic.
Qed.

(** C8. Once the record of a message is composed: if encoding it fails,
    the error is logged, nothing is written for the message, and the run
    goes on with the messages after it; if the write fails, the run is
    the write, the fatal log line and the exit of the process, whatever
    messages were still to come. *)
Theorem C8_marshal_error_skips_write_error_exits
    a m logstream tags a1 marathonInfo v :
  GetContainerTags (router.Message.Container m) a = (tags, a1) ->
  GetMarathonInfo (router.Message.Container m) a1 = Ok marathonInfo ->
  compose m (newDockerInfo m) tags marathonInfo = Ok v ->
  (forall err,
     json.Marshal v = inl err ->
     Stream a (m :: logstream) =
       {| events := Logged err :: events (Stream a1 logstream);
          adapter := adapter (Stream a1 logstream);
          ended := ended (Stream a1 logstream) |}) /\
  (forall js c e,
     json.Marshal v = inr js ->
     Write (conn a1) (js +:+ String newline EmptyString) = (c, Some e) ->
     Stream a (m :: logstream) =
       {| events := [Written (js +:+ String newline EmptyString);
                     LoggedFatal e];
          adapter := {| conn := c; containerTags := containerTags a1 |};
          ended := Exited |}).
Proof.
  intros Htags Hinfo Hv. split.
  - intros err Herr. rewrite Stream_cons.
    by rewrite (Stream_body_composed a m tags a1 marathonInfo v), Herr.
  - intros js c e Hjs Hwrite. rewrite Stream_cons.
    rewrite (Stream_body_composed a m tags a1 marathonInfo v) by done.
    rewrite Hjs. cbn zeta. by rewrite Hwrite.
Qed.

(** C9 (amended). When the payload decodes to an object, the record
    handed to the encoder has a [marathon] entry whatever the label map
    is; the entry is that map, it is written as a member of the object,
    and an empty label map is written as the empty object. *)
Theorem C9_merged_record_always_has_marathon
    m dockerInfo tags marathonInfo data :
  json.Unmarshal (router.Message.Data m) = inr (Some data) ->
  exists d,
    compose m dockerInfo tags marathonInfo = Ok (IMap d) /\
    d !! "marathon" = Some (IStringMap marathonInfo) /\
    (forall js,
       json.Marshal (IMap d) = inr js ->
       exists fields,
         js = json.object fields /\
         ("marathon", json.encodeStringMap marathonInfo) ∈ fields) /\
    json.encodeStringMap ∅ = "{}".
Proof.
  intros Hdata. eexists. split; [by apply compose_merged |].
  split; [apply lookup_insert_eq |]. split; [| reflexivity].
  intros js Hjs. unfold json.Marshal in Hjs.
  destruct (json.encode _) as [s|] eqn:Hs; simplify_eq.
  destruct (encode_map_fields _ _ Hs) as (fields & -> & Hfields).
  exists fields. split; [done |].
  destruct (Hfields "marathon" (IStringMap marathonInfo))
    as (s & Hs' & Hin); [apply lookup_insert_eq |].
  cbn in Hs'. by simplify_eq.
Qed.

(** C7. Every buffer handed to the connection is the JSON encoding of
    the record composed for one of the messages, followed by a newline
    byte; the encoding has no newline byte in it, so the one that ends
    the buffer is its only one. *)
Theorem C7_written_buffer_is_one_line a logstream buf :
  Written buf ∈ events (Stream a logstream) ->
  exists m js tags marathonInfo v,
    m ∈ logstream /\
    compose m (newDockerInfo m) tags marathonInfo = Ok v /\
    json.Marshal v = inr js /\
    buf = js +:+ String newline EmptyString /\
    has_byte newline js = false.
Proof.
  intros Hbuf.
  destruct (Stream_written a logstream buf Hbuf)
    as (m & js & tags & marathonInfo & v & Hm & -> & Hv & Hjs).
  exists m, js, tags, marathonInfo, v. repeat split; try done.
  by eapply Marshal_no_newline.
Qed.

End ForwardingClaims.

(** C9 (counterexample). A container without any scheduler entry logs
    [{}]: the record composed still has its [marathon] entry. *)
Lemma C9_counterexample_empty_metadata_still_present :
  GetMarathonInfo (container "c1" []) (newAdapter tt) = Ok ∅ /\
  ~ (forall d,
       compose (F := decimalFloat) (message "c1" [] "{}")
         (newDockerInfo (message "c1" [] "{}")) (Some []) ∅ = Ok (IMap d) ->
       d !! "marathon" = None).
Proof.
  split; [reflexivity |]. intros Hclaim.
  pose proof (compose_merged (F := decimalFloat) (message "c1" [] "{}")
                (newDockerInfo (message "c1" [] "{}")) (Some []) ∅ ∅
                eq_refl) as Hd.
  apply Hclaim in Hd. by rewrite lookup_insert_eq in Hd.
Qed.

(** ** The theorems at concrete inputs *)

Lemma C2_witness :
  containerTags (newAdapter tt)
    !! docker.Container.ID
         (container "c1"
            ["PATH=/bin"; "LOGSTASH_TAGS=prod,, web"; "LOGSTASH_TAGS=a,b"])
  = None /\
  docker.Config.Env
    (docker.Container.Config
       (container "c1"
          ["PATH=/bin"; "LOGSTASH_TAGS=prod,, web"; "LOGSTASH_TAGS=a,b"]))
  = ["PATH=/bin"] ++ ("LOGSTASH_TAGS=" +:+ "prod,, web")
      :: ["LOGSTASH_TAGS=a,b"] /\
  exists t1 t2,
    fold_left GetContainerTags_body ["PATH=/bin"] (Some []) = Some t1 /\
    fold_left GetContainerTags_body ["LOGSTASH_TAGS=a,b"] (Some [])
    = Some t2 /\
    (GetContainerTags
       (container "c1"
          ["PATH=/bin"; "LOGSTASH_TAGS=prod,, web"; "LOGSTASH_TAGS=a,b"])
       (newAdapter tt)).1
    = Some (t1 ++ strings.Split "prod,, web" "," ++ t2) /\
    strings.Join (strings.Split "prod,, web" ",") "," = "prod,, web" /\
    Forall (fun seg => has_byte "," seg = false)
      (strings.Split "prod,, web" ",").
Proof.
  split; [reflexivity |]. split; [reflexivity |].
  apply (C2_logstash_tags_split
           (container "c1"
              ["PATH=/bin"; "LOGSTASH_TAGS=prod,, web"; "LOGSTASH_TAGS=a,b"])
           (newAdapter tt) ["PATH=/bin"] "prod,, web" ["LOGSTASH_TAGS=a,b"]);
    reflexivity.
Defined.

(** The tags of that container, in full. *)
Example tags_in_scan_order :
  (GetContainerTags
     (container "c1"
        ["PATH=/bin"; "LOGSTASH_TAGS=prod,, web"; "LOGSTASH_TAGS=a,b"])
     (newAdapter tt)).1
  = Some ["prod"; ""; " web"; "a"; "b"].
Proof. reflexivity. Qed.

Lemma C3_witness :
  containerTags (newAdapter tt)
    !! docker.Container.ID
         (container "c1" ["MARATHON_APP_LABEL_ENVIRONMENT=prod=eu"])
  = None /\
  docker.Config.Env
    (docker.Container.Config
       (container "c1" ["MARATHON_APP_LABEL_ENVIRONMENT=prod=eu"]))
  = [] ++ ("MARATHON_APP_LABEL_" +:+ "ENVIRONMENT=prod=eu") :: [] /\
  (GetContainerTags
     (container "c1" ["MARATHON_APP_LABEL_ENVIRONMENT=prod=eu"])
     (newAdapter tt)).1
  = Some ["ENVIRONMENT_prod_eu"] /\
  has_byte "=" "ENVIRONMENT_prod_eu" = false.
Proof.
  split; [reflexivity |]. split; [reflexivity |].
  destruct (C3_label_tag_replaces_every_equals
              (container "c1" ["MARATHON_APP_LABEL_ENVIRONMENT=prod=eu"])
              (newAdapter tt) [] "ENVIRONMENT=prod=eu" [] eq_refl eq_refl)
    as [(t1 & t2 & H1 & H2 & Htags) [Hgone _]].
  split; [| exact Hgone].
  rewrite Htags. injection H1 as <-. injection H2 as <-. reflexivity.
Defined.

Lemma C5_witness :
  docker.Config.Env
    (docker.Container.Config
       (router.Message.Container
          (message "c1" ["MARATHON_APP_LABEL_FOO"] "hello")))
  = [] ++ ("MARATHON_APP_LABEL_" +:+ "FOO") :: [] /\
  has_byte "=" "FOO" = false /\
  exists msg,
    GetMarathonInfo
      (router.Message.Container
         (message "c1" ["MARATHON_APP_LABEL_FOO"] "hello"))
      (newAdapter 9%nat) = Panic msg /\
    events (Stream (F := decimalFloat) (H := quotaConn) (newAdapter 9%nat)
              (message "c1" ["MARATHON_APP_LABEL_FOO"] "hello"
               :: [message "c2" [] "next"])) = [] /\
    ended (Stream (F := decimalFloat) (H := quotaConn) (newAdapter 9%nat)
             (message "c1" ["MARATHON_APP_LABEL_FOO"] "hello"
              :: [message "c2" [] "next"])) = Panicked msg.
Proof.
  split; [reflexivity |]. split; [reflexivity |].
  apply (C5_label_without_separator_panics (F := decimalFloat)
           (H := quotaConn) (newAdapter 9%nat)
           (message "c1" ["MARATHON_APP_LABEL_FOO"] "hello")
           [message "c2" [] "next"] [] "FOO" []);
    reflexivity.
Defined.

Lemma C6_witness :
  containerTags (newAdapter tt)
    !! docker.Container.ID (container "c1" ["LOGSTASH_TAGS=prod,web"])
  = None /\
  GetContainerTags (container "c1" ["LOGSTASH_TAGS=prod,web"]) (newAdapter tt)
  = (Some ["prod"; "web"],
     {| conn := tt;
        containerTags := <["c1" := Some ["prod"; "web"]]> ∅ |}) /\
  docker.Container.ID (container "c1" ["LOGSTASH_TAGS=changed"])
  = docker.Container.ID (container "c1" ["LOGSTASH_TAGS=prod,web"]) /\
  GetContainerTags (container "c1" ["LOGSTASH_TAGS=changed"])
    (GetContainerTags (container "c1" ["LOGSTASH_TAGS=prod,web"])
       (newAdapter tt)).2
  = GetContainerTags (container "c1" ["LOGSTASH_TAGS=prod,web"])
      (newAdapter tt).
Proof.
  destruct (C6_tag_cache (container "c1" ["LOGSTASH_TAGS=prod,web"])
              (newAdapter tt)) as (_ & Hmiss & Hagain).
  split; [reflexivity |]. split; [exact (Hmiss eq_refl) |].
  split; [reflexivity |]. exact (Hagain _ eq_refl).
Defined.

Lemma C10_witness :
  (containerTags (newAdapter tt)
     !! docker.Container.ID (container "c1" ["LOGSTASH_TAGS="]) = None /\
   docker.Config.Env
     (docker.Container.Config (container "c1" ["LOGSTASH_TAGS="]))
   = [] ++ "LOGSTASH_TAGS=" :: [] /\
   (GetContainerTags (container "c1" ["LOGSTASH_TAGS="]) (newAdapter tt)).1
   = Some [EmptyString]) /\
  (containerTags (newAdapter tt)
     !! docker.Container.ID (container "c2" ["PATH=/bin"; "HOME=/root"])
   = None /\
   Forall (fun e => strings.HasPrefix e "LOGSTASH_TAGS=" = false /\
                    strings.HasPrefix e "MARATHON_APP_LABEL_" = false)
     (docker.Config.Env
        (docker.Container.Config
           (container "c2" ["PATH=/bin"; "HOME=/root"]))) /\
   (GetContainerTags (container "c2" ["PATH=/bin"; "HOME=/root"])
      (newAdapter tt)).1 = Some [] /\
   containerTags
     (GetContainerTags (container "c2" ["PATH=/bin"; "HOME=/root"])
        (newAdapter tt)).2
     !! docker.Container.ID (container "c2" ["PATH=/bin"; "HOME=/root"])
   = Some (Some [])).
Proof.
  split.
  - split; [reflexivity |]. split; [reflexivity |].
    destruct (C10_empty_value_and_no_tags
                (container "c1" ["LOGSTASH_TAGS="]) (newAdapter tt) eq_refl)
      as [Hempty _].
    destruct (Hempty [] [] eq_refl) as (t1 & t2 & H1 & H2 & Htags).
    rewrite Htags. injection H1 as <-. injection H2 as <-. reflexivity.
  - split; [reflexivity |].
    assert (Forall (fun e => strings.HasPrefix e "LOGSTASH_TAGS=" = false /\
                             strings.HasPrefix e "MARATHON_APP_LABEL_" = false)
              ["PATH=/bin"; "HOME=/root"]) as Hnone
      by (repeat constructor).
    split; [exact Hnone |].
    destruct (C10_empty_value_and_no_tags
                (container "c2" ["PATH=/bin"; "HOME=/root"]) (newAdapter tt)
                eq_refl) as [_ Hplain].
    exact (Hplain Hnone).
Defined.

Lemma C7_witness :
  Written helloLine
    ∈ events (Stream (F := decimalFloat) (H := quotaConn) (newAdapter 9%nat)
                [message "c1" ["LOGSTASH_TAGS=prod,web"] "hello"]) /\
  exists m js tags marathonInfo v,
    m ∈ [message "c1" ["LOGSTASH_TAGS=prod,web"] "hello"] /\
    compose (F := decimalFloat) m (newDockerInfo m) tags marathonInfo = Ok v /\
    json.Marshal v = inr js /\
    helloLine = js +:+ String newline EmptyString /\
    has_byte newline js = false.
Proof.
  assert (Written helloLine
            ∈ events (Stream (F := decimalFloat) (H := quotaConn)
                        (newAdapter 9%nat)
                        [message "c1" ["LOGSTASH_TAGS=prod,web"] "hello"]))
    as Hin by apply list_elem_of_here.
  split; [exact Hin |].
  exact (C7_written_buffer_is_one_line _ _ _ Hin).
Defined.

Lemma C8_witness :
  (exists v,
     compose (F := nanFloat) (message "c1" [] numberPayload)
       (newDockerInfo (message "c1" [] numberPayload)) (Some []) ∅ = Ok v /\
     json.Marshal v = inl json.UnsupportedValueError /\
     Stream (F := nanFloat) (H := quotaConn) (newAdapter 9%nat)
       [message "c1" [] numberPayload; message "c1" [] "hello"]
     = {| events :=
            Logged json.UnsupportedValueError
            :: events (Stream (F := nanFloat) (H := quotaConn)
                         {| conn := 9%nat;
                            containerTags := <["c1" := Some []]> ∅ |}
                         [message "c1" [] "hello"]);
          adapter :=
            adapter (Stream (F := nanFloat) (H := quotaConn)
                       {| conn := 9%nat;
                          containerTags := <["c1" := Some []]> ∅ |}
                       [message "c1" [] "hello"]);
          ended :=
            ended (Stream (F := nanFloat) (H := quotaConn)
                     {| conn := 9%nat;
                        containerTags := <["c1" := Some []]> ∅ |}
                     [message "c1" [] "hello"]) |}) /\
  (exists v js,
     compose (F := decimalFloat) (message "c1" [] "hello")
       (newDockerInfo (message "c1" [] "hello")) (Some []) ∅ = Ok v /\
     json.Marshal v = inr js /\
     Write (Conn := quotaConn) 0%nat (js +:+ String newline EmptyString)
     = (0%nat, Some "broken pipe") /\
     Stream (F := decimalFloat) (H := quotaConn) (newAdapter 0%nat)
       [message "c1" [] "hello"; message "c1" [] "never sent"]
     = {| events := [Written (js +:+ String newline EmptyString);
                     LoggedFatal "broken pipe"];
          adapter := {| conn := 0%nat;
                        containerTags := <["c1" := Some []]> ∅ |};
          ended := Exited |}).
Proof.
  split.
  - eexists. split; [reflexivity |]. split; [reflexivity |].
    eapply (proj1 (C8_marshal_error_skips_write_error_exits
                     (F := nanFloat) (H := quotaConn) (newAdapter 9%nat)
                     (message "c1" [] numberPayload)
                     [message "c1" [] "hello"] (Some [])
                     {| conn := 9%nat;
                        containerTags := <["c1" := Some []]> ∅ |}
                     ∅ _ eq_refl eq_refl eq_refl));
      reflexivity.
  - eexists. eexists. split; [reflexivity |]. split; [reflexivity |].
    split; [reflexivity |].
    eapply (proj2 (C8_marshal_error_skips_write_error_exits
                     (F := decimalFloat) (H := quotaConn) (newAdapter 0%nat)
                     (message "c1" [] "hello")
                     [message "c1" [] "never sent"] (Some [])
                     {| conn := 0%nat;
                        containerTags := <["c1" := Some []]> ∅ |}
                     ∅ _ eq_refl eq_refl eq_refl));
      reflexivity.
Defined.

Lemma C9_witness :
  json.Unmarshal (F := decimalFloat)
    (router.Message.Data (message "c1" [] "{}")) = inr (Some ∅) /\
  exists d,
    compose (F := decimalFloat) (message "c1" [] "{}")
      (newDockerInfo (message "c1" [] "{}")) (Some []) ∅ = Ok (IMap d) /\
    d !! "marathon" = Some (IStringMap ∅).
Proof.
  split; [reflexivity |].
  destruct (C9_merged_record_always_has_marathon (F := decimalFloat)
              (message "c1" [] "{}") (newDockerInfo (message "c1" [] "{}"))
              (Some []) ∅ ∅ eq_refl) as (d & Hd & Hlookup & _).
  exists d. split; [exact Hd | exact Hlookup].
Defined.

(** * Further properties *)

(** ** Tag extraction and the cache *)

Lemma genSplit_length (c : ascii) (seg s : string) :
  length (strings.genSplit (String c EmptyString) 0 seg s)
  = S (count_byte c s).
Proof.
  revert seg. induction s as [|a s IH]; intros seg; [done |].
  cbn -[String.prefix]. rewrite prefix_byte.
  destruct (Ascii.eqb a c); cbn [length]; by rewrite IH.
Qed.

Lemma genSplit_first (c : ascii) (seg K T : string) :
  has_byte c K = false ->
  strings.genSplit (String c EmptyString) 0 seg
    (K +:+ String c EmptyString +:+ T)
  = (seg +:+ K) :: strings.genSplit (String c EmptyString) 0 EmptyString T.
Proof.
  intros HK. revert seg HK. induction K as [|x K IH]; intros seg HK.
  - rewrite append_nil_l, append_nil_r, append_cons, append_nil_l.
    cbn -[String.prefix].
    by rewrite prefix_byte, Ascii.eqb_refl.
  - cbn in HK. apply orb_false_iff in HK as [Hx HK].
    rewrite append_cons. cbn -[String.prefix].
    rewrite prefix_byte, Hx, IH by done. by rewrite append_assoc.
Qed.

Lemma genSplit_two (c : ascii) (seg s : string) :
  has_byte c s = true ->
  exists k v more,
    strings.genSplit (String c EmptyString) 0 seg s = k :: v :: more.
Proof.
  revert seg. induction s as [|a s IH]; intros seg Hs; [done |].
  cbn -[String.prefix]. rewrite prefix_byte. cbn in Hs.
  destruct (Ascii.eqb a c).
  - destruct (genSplit_cons c EmptyString s) as (v & more & ->). eauto.
  - by apply IH.
Qed.

Section MoreTags.
Context {C : Type}.
Implicit Types (a : @LogstashAdapter C) (c : docker.Container.t).
Implicit Types (env : list string) (e rest : string).

(** X1. [GetContainerTags] leaves the connection alone and only ever adds
    to the cache: an entry that is there stays as it is, entries of other
    containers are not touched, and afterwards the container has one. *)
Theorem GetContainerTags_cache_grows c a :
  conn (GetContainerTags c a).2 = conn a /\
  (forall id tags,
     containerTags a !! id = Some tags ->
     containerTags (GetContainerTags c a).2 !! id = Some tags) /\
  (forall id,
     id <> docker.Container.ID c ->
     containerTags (GetContainerTags c a).2 !! id = containerTags a !! id) /\
  containerTags (GetContainerTags c a).2 !! docker.Container.ID c
  = Some (GetContainerTags c a).1.
Proof.
  destruct (containerTags a !! docker.Container.ID c) as [tags|] eqn:Hc.
  - rewrite (GetContainerTags_hit c a tags) by done. by cbn.
  - rewrite GetContainerTags_miss by done. cbn. repeat split.
    + intros id tags Hid. rewrite lookup_insert_ne; [done |].
      intros <-. congruence.
    + intros id Hid. by rewrite lookup_insert_ne.
    + apply lookup_insert_eq.
Qed.

Lemma GetContainerTags_keeps_allocated c a :
  cache_allocated a ->
  is_Some (GetContainerTags c a).1 /\
  cache_allocated (GetContainerTags c a).2.
Proof.
  intros Halloc.
  destruct (containerTags a !! docker.Container.ID c) as [tags|] eqn:Hc.
  - rewrite (GetContainerTags_hit c a tags) by done. cbn.
    split; [by eapply Halloc | done].
  - rewrite GetContainerTags_miss by done. cbn.
    destruct (GetContainerTags_range_app
                (docker.Config.Env (docker.Container.Config c)))
      as [ts Hts].
    rewrite Hts. split; [by eexists |].
    intros id tags. cbn. intros Hid.
    destruct (decide (docker.Container.ID c = id)) as [<-|Hne].
    + rewrite lookup_insert_eq in Hid. simplify_eq. by eexists.
    + rewrite lookup_insert_ne in Hid by done. by eapply Halloc.
Qed.

(** X2. As long as the cache holds allocated slices only, as the empty
    cache of a new adapter does, the tags returned are an allocated slice
    (never nil) and the cache stays that way. *)
Theorem GetContainerTags_allocated c a :
  cache_allocated a ->
  is_Some (GetContainerTags c a).1 /\
  cache_allocated (GetContainerTags c a).2.
Proof. apply GetContainerTags_keeps_allocated. Qed.

(** X3. The tags of an environment are the tags of its first part
    followed by the tags of the rest: scan order is tag order. *)
Theorem tags_of_app env1 env2 l1 l2 :
  fold_left GetContainerTags_body env1 (Some []) = Some l1 ->
  fold_left GetContainerTags_body env2 (Some []) = Some l2 ->
  fold_left GetContainerTags_body (env1 ++ env2) (Some [])
  = Some (l1 ++ l2).
Proof.
  intros H1 H2. rewrite fold_left_app, H1.
  destruct (GetContainerTags_range_app env2) as [ts Hts].
  rewrite Hts. rewrite Hts in H2. by simplify_eq/=.
Qed.

Lemma GetContainerTags_body_skip e tags :
  isTagEntry e = false -> GetContainerTags_body tags e = tags.
Proof.
  unfold isTagEntry, GetContainerTags_body.
  intros [-> ->]%orb_false_iff. done.
Qed.

Lemma tags_of_filter env tags :
  fold_left GetContainerTags_body (List.filter isTagEntry env) tags
  = fold_left GetContainerTags_body env tags.
Proof.
  revert tags. induction env as [|e env IH]; intros tags; [done |].
  cbn [List.filter]. destruct (isTagEntry e) eqn:He; cbn [fold_left].
  - apply IH.
  - rewrite IH. by rewrite GetContainerTags_body_skip.
Qed.

(** X4. Entries that start with neither [LOGSTASH_TAGS=] nor
    [MARATHON_APP_LABEL_] play no part: a container gets the tags it would
    get with those entries removed from its environment. *)
Theorem GetContainerTags_ignores_other_entries c c' a :
  docker.Container.ID c' = docker.Container.ID c ->
  docker.Config.Env (docker.Container.Config c')
  = List.filter isTagEntry (docker.Config.Env (docker.Container.Config c)) ->
  GetContainerTags c' a = GetContainerTags c a.
Proof.
  intros Hid Henv. unfold GetContainerTags.
  by rewrite Hid, Henv, tags_of_filter.
Qed.

(** X5. A [LOGSTASH_TAGS=] entry adds one tag more than its value has
    commas: at least one, and empty segments count. *)
Theorem LOGSTASH_TAGS_count rest l :
  exists l',
    GetContainerTags_body (Some l) ("LOGSTASH_TAGS=" +:+ rest) = Some l' /\
    length l' = (length l + S (count_byte "," rest))%nat.
Proof.
  eexists. split; [apply body_LOGSTASH_TAGS |].
  rewrite length_app. unfold strings.Split. by rewrite genSplit_length.
Qed.

End MoreTags.

(** ** The sibling revision's tags *)

Section SiblingTagFacts.
Context {C : Type}.
Implicit Types (a : @LogstashAdapter C) (c : docker.Container.t).

Lemma sibling_range_none env tags :
  Forall (fun e => strings.HasPrefix e "LOGSTASH_TAGS=" = false) env ->
  sibling.GetContainerTags_range env tags = tags.
Proof.
  induction 1 as [|e env He _ IH]; [done |]. cbn. by rewrite He.
Qed.

Lemma sibling_range_first env1 rest env2 tags :
  Forall (fun e => strings.HasPrefix e "LOGSTASH_TAGS=" = false) env1 ->
  sibling.GetContainerTags_range
    (env1 ++ ("LOGSTASH_TAGS=" +:+ rest) :: env2) tags
  = Some (strings.Split rest ",").
Proof.
  induction 1 as [|e env1 He _ IH]; cbn [app sibling.GetContainerTags_range].
  - by rewrite HasPrefix_app, TrimPrefix_app.
  - by rewrite He.
Qed.

(** X6. In the sibling revision the first [LOGSTASH_TAGS=] entry alone
    decides the tags: on a cache miss they are its segments, whatever
    follows it, label entries add nothing, and an environment without such
    an entry gives the empty allocated slice. *)
Theorem sibling_GetContainerTags_first_entry_only c a :
  containerTags a !! docker.Container.ID c = None ->
  (forall env1 rest env2,
     docker.Config.Env (docker.Container.Config c)
       = env1 ++ ("LOGSTASH_TAGS=" +:+ rest) :: env2 ->
     Forall (fun e => strings.HasPrefix e "LOGSTASH_TAGS=" = false) env1 ->
     (sibling.GetContainerTags c a).1 = Some (strings.Split rest ",")) /\
  (Forall (fun e => strings.HasPrefix e "LOGSTASH_TAGS=" = false)
     (docker.Config.Env (docker.Container.Config c)) ->
   (sibling.GetContainerTags c a).1 = Some []).
Proof.
  intros Hmiss. unfold sibling.GetContainerTags. rewrite Hmiss. cbn. split.
  - intros env1 rest env2 -> Hbefore. by apply sibling_range_first.
  - intros Hnone. by apply sibling_range_none.
Qed.

End SiblingTagFacts.

(** ** Labels *)

Section MoreMarathon.
Context {C : Type}.
Implicit Types (a : @LogstashAdapter C) (c : docker.Container.t).
Implicit Types (env : list string) (info : gmap string string).

Lemma GetMarathonInfo_body_separator e info :
  strings.HasPrefix e "MARATHON_APP_LABEL_" = true ->
  has_byte "=" (strings.TrimPrefix e "MARATHON_APP_LABEL_") = true ->
  exists k v, GetMarathonInfo_body info e = Ok (<[k := v]> info).
Proof.
  intros Hpre Hsep. unfold GetMarathonInfo_body. rewrite Hpre.
  destruct (genSplit_two "=" EmptyString _ Hsep) as (k & v & more & Hkv).
  unfold strings.Split. rewrite Hkv. by exists k, v.
Qed.

Lemma GetMarathonInfo_body_ok e info :
  (exists info', GetMarathonInfo_body info e = Ok info') <->
  (strings.HasPrefix e "MARATHON_APP_LABEL_" = true ->
   has_byte "=" (strings.TrimPrefix e "MARATHON_APP_LABEL_") = true).
Proof.
  split.
  - intros [info' Hok] Hpre.
    destruct (has_byte "=" (strings.TrimPrefix e "MARATHON_APP_LABEL_"))
      eqn:Hsep; [done |].
    unfold GetMarathonInfo_body in Hok. rewrite Hpre in Hok.
    by rewrite (Split_absent "=" _ Hsep) in Hok.
  - intros Hsep.
    destruct (strings.HasPrefix e "MARATHON_APP_LABEL_") eqn:Hpre.
    + destruct (GetMarathonInfo_body_separator e info Hpre (Hsep eq_refl))
        as (k & v & ->). by eexists.
    + unfold GetMarathonInfo_body. rewrite Hpre. by eexists.
Qed.

Lemma GetMarathonInfo_range_ok env info :
  (exists info', GetMarathonInfo_range env info = Ok info') <->
  Forall (fun e =>
            strings.HasPrefix e "MARATHON_APP_LABEL_" = true ->
            has_byte "=" (strings.TrimPrefix e "MARATHON_APP_LABEL_") = true)
    env.
Proof.
  revert info. induction env as [|e env IH]; intros info;
    cbn [GetMarathonInfo_range].
  - split; [by constructor | by eexists].
  - rewrite Forall_cons, <- GetMarathonInfo_body_ok. split.
    + intros [info' Hok].
      destruct (GetMarathonInfo_body info e) as [info1|msg] eqn:Hbody;
        [| done].
      split; [by eexists |]. apply (IH info1). by eexists.
    + intros [[info1 Hbody] Hrest]. rewrite Hbody. cbn. by apply IH.
Qed.

(** X7. [GetMarathonInfo] returns a label map exactly when every entry
    with the label prefix has an [=] after the prefix; otherwise it
    panics. *)
Theorem GetMarathonInfo_returns_iff c a :
  (exists info, GetMarathonInfo c a = Ok info) <->
  Forall (fun e =>
            strings.HasPrefix e "MARATHON_APP_LABEL_" = true ->
            has_byte "=" (strings.TrimPrefix e "MARATHON_APP_LABEL_") = true)
    (docker.Config.Env (docker.Container.Config c)).
Proof. apply GetMarathonInfo_range_ok. Qed.

(** X8. The value of a label stops at the next [=]: the entry
    [MARATHON_APP_LABEL_<K>=<V>=<W>] sets [K] to [V] and drops [=<W>],
    while the tag made from the same entry keeps all three parts. *)
Theorem label_value_stops_at_second_equals K V W info l :
  has_byte "=" K = false -> has_byte "=" V = false ->
  GetMarathonInfo_body info
    ("MARATHON_APP_LABEL_" +:+ K +:+ "=" +:+ V +:+ "=" +:+ W)
  = Ok (<[K := V]> info) /\
  GetContainerTags_body (Some l)
    ("MARATHON_APP_LABEL_" +:+ K +:+ "=" +:+ V +:+ "=" +:+ W)
  = Some (l ++ [K +:+ "_" +:+ V +:+ "_"
                +:+ map_bytes (fun b => if Ascii.eqb b "=" then "_"%char else b)
                      W]).
Proof.
  intros HK HV. split.
  - unfold GetMarathonInfo_body. rewrite HasPrefix_app, TrimPrefix_app.
    unfold strings.Split.
    rewrite (genSplit_first "=" EmptyString K _ HK).
    by rewrite (genSplit_first "=" EmptyString V _ HV).
  - rewrite body_MARATHON_APP_LABEL. unfold strings.Replace.
    cbn [String.eqb Ascii.eqb Bool.eqb orb Z.eqb]. cbn.
    rewrite genReplace_all, !map_bytes_app.
    by rewrite (map_bytes_absent _ _ K), (map_bytes_absent _ _ V).
Qed.

Lemma GetMarathonInfo_range_app env1 env2 info :
  GetMarathonInfo_range (env1 ++ env2) info
  = (info1 ← GetMarathonInfo_range env1 info;
     GetMarathonInfo_range env2 info1).
Proof.
  revert info. induction env1 as [|e env1 IH]; intros info; [done |].
  cbn [app GetMarathonInfo_range].
  destruct (GetMarathonInfo_body info e) as [info'|msg]; [apply IH | done].
Qed.

(** X9. The last entry for a label wins and the other labels stay: after
    any entries that gave [info1], a well-formed entry for [K] followed by
    entries without the label prefix gives [info1] with [K] set to its
    value, whatever [info1] held for [K]. *)
Theorem GetMarathonInfo_last_label_wins c a env1 K V env2 info1 :
  docker.Config.Env (docker.Container.Config c)
    = env1 ++ ("MARATHON_APP_LABEL_" +:+ K +:+ "=" +:+ V) :: env2 ->
  GetMarathonInfo_range env1 ∅ = Ok info1 ->
  has_byte "=" K = false -> has_byte "=" V = false ->
  Forall (fun e => strings.HasPrefix e "MARATHON_APP_LABEL_" = false) env2 ->
  GetMarathonInfo c a = Ok (<[K := V]> info1) /\
  (<[K := V]> info1 : gmap string string) !! K = Some V /\
  (forall K', K' <> K ->
     (<[K := V]> info1 : gmap string string) !! K' = info1 !! K').
Proof.
  intros Henv H1 HK HV H2. split; [| split].
  - unfold GetMarathonInfo. rewrite Henv, GetMarathonInfo_range_app, H1.
    cbn. rewrite GetMarathonInfo_body_label by done. cbn.
    by apply GetMarathonInfo_range_other.
  - apply lookup_insert_eq.
  - intros K' Hne. by rewrite lookup_insert_ne.
Qed.

End MoreMarathon.

(** ** The sibling revision's metadata *)

Lemma isMapEntry_false (e : string) :
  isMapEntry e = false ->
  strings.HasPrefix e "MARATHON_APP_LABEL_" = false /\
  strings.HasPrefix e "MARATHON_APP_RESOURCE_CPUS=" = false /\
  strings.HasPrefix e "MARATHON_APP_RESOURCE_MEM=" = false /\
  strings.HasPrefix e "MARATHON_APP_RESOURCE_DISK=" = false.
Proof.
  unfold isMapEntry. intros H.
  repeat (apply orb_false_iff in H as [H ?]). done.
Qed.

Lemma GetMarathonData_body_nil (m : MarathonData.t) (e : string) :
  MarathonData.Resource m = None -> MarathonData.Label m = None ->
  if isMapEntry e
  then exists msg, GetMarathonData_body m e = Panic msg
  else exists m',
         GetMarathonData_body m e = Ok m' /\
         MarathonData.Resource m' = None /\ MarathonData.Label m' = None.
Proof.
  destruct m as [version resource id label image]. cbn. intros -> ->.
  destruct (isMapEntry e) eqn:He.
  - unfold isMapEntry in He. unfold GetMarathonData_body.
    destruct (strings.HasPrefix e "MARATHON_APP_LABEL_").
    { destruct (index _ 0) as [k|msg]; cbn; [| by eexists].
      destruct (index _ 1) as [v|msg]; cbn; by eexists. }
    destruct (strings.HasPrefix e "MARATHON_APP_RESOURCE_CPUS=");
      [cbn; by eexists |].
    destruct (strings.HasPrefix e "MARATHON_APP_RESOURCE_MEM=");
      [cbn; by eexists |].
    destruct (strings.HasPrefix e "MARATHON_APP_RESOURCE_DISK=");
      [cbn; by eexists | done].
  - apply isMapEntry_false in He as (H1 & H2 & H3 & H4).
    unfold GetMarathonData_body. rewrite H1, H2, H3, H4.
    repeat case_match; eexists; done.
Qed.

Lemma GetMarathonData_range_nil (env : list string) (m : MarathonData.t) :
  MarathonData.Resource m = None -> MarathonData.Label m = None ->
  (Forall (fun e => isMapEntry e = false) env ->
   exists m',
     GetMarathonData_range env m = Ok m' /\
     MarathonData.Resource m' = None /\ MarathonData.Label m' = None) /\
  (Exists (fun e => isMapEntry e = true) env ->
   exists msg, GetMarathonData_range env m = Panic msg).
Proof.
  revert m. induction env as [|e env IH]; intros m Hr Hl.
  { split; [intros _; by exists m | by intros ?%Exists_nil]. }
  pose proof (GetMarathonData_body_nil m e Hr Hl) as Hbody.
  cbn [GetMarathonData_range]. destruct (isMapEntry e) eqn:He.
  - destruct Hbody as [msg ->]. split.
    + intros Hall. apply Forall_cons in Hall as [? _]. congruence.
    + intros _. by exists msg.
  - destruct Hbody as (m' & -> & Hr' & Hl'). cbn.
    destruct (IH m' Hr' Hl') as [IHok IHpanic]. split.
    + intros Hall. apply Forall_cons in Hall as [_ Hall]. by apply IHok.
    + intros Hex. apply Exists_cons in Hex as [Hex|Hex]; [congruence |].
      by apply IHpanic.
Qed.

(** X10. [GetMarathonData] never returns a label or resource: it panics
    as soon as the environment has an entry with the label prefix or one
    of the three resource prefixes, and when it has none the value
    returned has both maps nil. *)
Theorem GetMarathonData_never_fills_a_map (c : docker.Container.t) :
  (Exists (fun e => isMapEntry e = true)
     (docker.Config.Env (docker.Container.Config c)) ->
   exists msg, GetMarathonData c = Panic msg) /\
  (Forall (fun e => isMapEntry e = false)
     (docker.Config.Env (docker.Container.Config c)) ->
   exists m,
     GetMarathonData c = Ok m /\
     MarathonData.Resource m = None /\ MarathonData.Label m = None).
Proof.
  unfold GetMarathonData.
  destruct (GetMarathonData_range_nil
              (docker.Config.Env (docker.Container.Config c))
              {| MarathonData.Version := EmptyString;
                 MarathonData.Resource := None;
                 MarathonData.ID := EmptyString;
                 MarathonData.Label := None;
                 MarathonData.Image := EmptyString |} eq_refl eq_refl)
    as [Hok Hpanic].
  split; [exact Hpanic | exact Hok].
Qed.

(** ** More on composing the record *)

Section MoreCompose.
Context {F : Float64}.
Implicit Types (m : router.Message.t) (dockerInfo : DockerInfo.t).
Implicit Types (tags : slice string) (marathonInfo : gmap string string).

(** X11. When the payload decodes to an object, the record is that object
    with the keys [docker], [tags], [stream] and [marathon] set to the
    adapter's values, whatever the payload had under them, and every other
    key as in the payload. *)
Theorem merged_record_keeps_other_keys m dockerInfo tags marathonInfo data :
  json.Unmarshal (router.Message.Data m) = inr (Some data) ->
  exists d,
    compose m dockerInfo tags marathonInfo = Ok (IMap d) /\
    d !! "docker" = Some (IDockerInfo dockerInfo) /\
    d !! "tags" = Some (IStrings tags) /\
    d !! "stream" = Some (IString (router.Message.Source m)) /\
    d !! "marathon" = Some (IStringMap marathonInfo) /\
    (forall k, k <> "docker" -> k <> "tags" -> k <> "stream" ->
       k <> "marathon" -> d !! k = data !! k).
Proof.
  intros Hdata. eexists. split; [by apply compose_merged |].
  apply merged_lookup.
Qed.

Lemma put_inside v stack st x :
  json.put v stack = Some (st, x) ->
  (stack = [] -> container_value v) -> inside st x.
Proof.
  unfold json.put. intros Hput Hv.
  destruct stack as [|[items|mo [k|]] stack']; simplify_eq; cbn; auto.
Qed.

Lemma parse_step_inside stack x t st x' e :
  json.parse_step stack x t = Some (st, x', e) ->
  inside stack x -> inside st x'.
Proof.
  intros Hstep Hin.
  assert (stack <> []) as Hne.
  { destruct x; try done. }
  assert (forall v, json.put v stack = Some (st, x') -> inside st x')
    as Hput.
  { intros v Hv. eapply put_inside; [exact Hv | done]. }
  assert (forall t0, json.begin_value stack t0 = Some (st, x', e) ->
                     inside st x') as Hbegin.
  { intros t0 Hb. unfold json.begin_value, json.push, json.literal in Hb.
    destruct t0; cbn in Hb;
      repeat (case_match; simplify_eq/=); try (by cbn);
      apply bind_Some in Hb as ([st0 x0] & Hp & Hb); simplify_eq; eauto. }
  assert (forall t0, json.end_value stack t0 = Some (st, x', e) ->
                     inside st x') as Hend.
  { intros t0 He. unfold json.end_value in He.
    destruct stack as [|[items|mo [k|]] stack']; destruct t0; cbn in He;
      repeat (case_match; simplify_eq/=); try done;
      apply bind_Some in He as ([st0 x0] & Hp & He); simplify_eq;
      (eapply put_inside; [exact Hp | by cbn]). }
  assert (forall t0, json.begin_key stack t0 = Some (st, x', e) ->
                     inside st x') as Hkey.
  { intros t0 Hk. unfold json.begin_key in Hk.
    destruct stack as [|[items|mo [k|]] stack']; destruct t0;
      by simplify_eq. }
  destruct x; cbn in Hstep; try done.
  - eauto.
  - destruct t; eauto.
  - destruct t; eauto.
  - eauto.
  - destruct t; by simplify_eq.
  - destruct t; eauto.
    destruct stack as [|[items|mo k] stack']; by simplify_eq.
Qed.

Lemma parse_from_inside toks stack x terr v e :
  json.parse_from stack x terr toks = Some (v, e) ->
  inside stack x -> container_value v.
Proof.
  revert stack x terr. induction toks as [|t toks IH]; intros stack x terr.
  - cbn. destruct x; try done. by intros [= -> ->].
  - cbn [json.parse_from]. intros Hparse Hin.
    destruct (json.parse_step stack x t) as [[[st x'] e']|] eqn:Hstep;
      [| done].
    cbn in Hparse. eapply IH; [exact Hparse |].
    by eapply parse_step_inside.
Qed.

Lemma parse_nil toks :
  json.parse toks = Some (INil, false) -> toks = [scanner.TNull].
Proof.
  unfold json.parse. destruct toks as [|t toks]; [done |].
  cbn [json.parse_from]. unfold json.parse_step, json.begin_value.
  intros Hparse.
  destruct t; cbn in Hparse;
    try (apply parse_from_inside in Hparse; [done | by cbn]);
    try done.
  all: try (destruct toks; [by simplify_eq/= | done]).
  destruct (ParseFloat lit); cbn in Hparse; destruct toks; by simplify_eq/=.
Qed.

Lemma Unmarshal_nil (data : string) :
  json.Unmarshal data = inr None <-> scanner.lex data = Some [scanner.TNull].
Proof.
  unfold json.Unmarshal. split.
  - destruct (scanner.lex data) as [toks|]; [| done].
    destruct (json.parse toks) as [[v e]|] eqn:Hparse; [| done].
    destruct v, e; try done.
    intros _. by rewrite (parse_nil _ Hparse).
  - by intros ->.
Qed.

(** X12. Composing the record panics exactly when the payload is the one
    JSON token [null] (white space around it allowed); every other payload
    gives a record. *)
Theorem compose_panics_iff_null m dockerInfo tags marathonInfo :
  (exists msg, compose m dockerInfo tags marathonInfo = Panic msg) <->
  scanner.lex (router.Message.Data m) = Some [scanner.TNull].
Proof.
  rewrite <- Unmarshal_nil. unfold compose. split.
  - intros [msg Hpanic].
    destruct (json.Unmarshal (router.Message.Data m)) as [err|[d|]];
      by simplify_eq/=.
  - intros ->. by eexists.
Qed.

End MoreCompose.

(** ** More on the forwarding loop *)

Section MoreForwarding.
Context {F : Float64} {C : Type} `{Conn C}.
Implicit Types (a : @LogstashAdapter C) (m : router.Message.t).
Implicit Types (logstream : list router.Message.t).

Lemma Stream_body_turn a m : turn a m (Stream_body a m).
Proof.
  destruct (GetContainerTags (router.Message.Container m) a)
    as [tags a1] eqn:Htags.
  destruct (marathonInfo ← GetMarathonInfo (router.Message.Container m) a1;
            compose m (newDockerInfo m) tags marathonInfo)
    as [v|msg] eqn:Hv.
  - destruct (GetMarathonInfo (router.Message.Container m) a1)
      as [marathonInfo|] eqn:Hinfo; [| done].
    cbn in Hv.
    rewrite (Stream_body_composed a m tags a1 marathonInfo v) by done.
    destruct (json.Marshal v) as [err|js] eqn:Hjs.
    + replace a1 with (GetContainerTags (router.Message.Container m) a).2
        by (by rewrite Htags).
      eapply turn_logged; rewrite ?Htags; cbn; done.
    + cbn zeta.
      destruct (Write (conn a1) (js +:+ String newline EmptyString))
        as [c e] eqn:Hwrite.
      pose proof (turn_written a m marathonInfo v js c e) as Hturn.
      rewrite Htags in Hturn. cbn in Hturn.
      specialize (Hturn Hinfo Hv Hjs Hwrite). by destruct e.
  - rewrite (Stream_body_panic a m tags a1 msg) by done.
    pose proof (turn_panic a m msg) as Hturn.
    rewrite Htags in Hturn. cbn in Hturn. by apply Hturn.
Qed.

End MoreForwarding.

Section LoopFacts.
Context {F : Float64} {C : Type} `{Conn C}.
Implicit Types (a : @LogstashAdapter C) (m : router.Message.t).
Implicit Types (logstream : list router.Message.t).

Ltac turn_cases a m :=
  let Ht := fresh "Ht" in
  pose proof (Stream_body_turn a m) as Ht;
  destruct (Stream_body a m) as [[? ?] ?];
  inversion Ht; subst; clear Ht.

Lemma run_eta (r : @run C) :
  {| events := events r; adapter := adapter r; ended := ended r |} = r.
Proof. by destruct r. Qed.

(** X13. A run over two batches is the run over the first followed, if
    that one ended with the channel closed, by the run over the second
    from the adapter the first left; a run that ended in an exit or a
    panic is not continued by anything. *)
Theorem Stream_app a l1 l2 :
  Stream a (l1 ++ l2) =
    match ended (Stream a l1) with
    | Closed =>
        {| events := events (Stream a l1)
                     ++ events (Stream (adapter (Stream a l1)) l2);
           adapter := adapter (Stream (adapter (Stream a l1)) l2);
           ended := ended (Stream (adapter (Stream a l1)) l2) |}
    | _ => Stream a l1
    end.
Proof.
  revert a. induction l1 as [|m l1 IH]; intros a.
  { cbn. by rewrite run_eta. }
  cbn [app]. rewrite !Stream_cons. turn_cases a m; cbn.
  - done.
  - rewrite IH. destruct (ended (Stream _ l1)) eqn:Hend; cbn;
      rewrite ?Hend; done.
  - destruct e; cbn; [done |].
    rewrite IH. destruct (ended (Stream _ l1)) eqn:Hend; cbn;
      rewrite ?Hend; done.
Qed.

(** X14. No message is counted twice and none is lost: the buffers written
    and the errors logged are together at most as many as the messages,
    exactly as many when the run ended with the channel closed, and then
    nothing fatal was logged; at most one fatal line is ever logged. *)
Theorem Stream_accounts_for_messages a logstream :
  (length (writes (events (Stream a logstream)))
   + length (logged (events (Stream a logstream)))
   <= length logstream)%nat /\
  (length (fatals (events (Stream a logstream))) <= 1)%nat /\
  (ended (Stream a logstream) = Closed ->
   (length (writes (events (Stream a logstream)))
    + length (logged (events (Stream a logstream)))
    = length logstream)%nat /\
   fatals (events (Stream a logstream)) = []).
Proof.
  revert a. induction logstream as [|m rest IH]; intros a.
  { cbn. split; [lia |]. split; [lia |]. intros _. split; [lia | done]. }
  rewrite Stream_cons. turn_cases a m; cbn.
  - split; [lia |]. split; [lia | done].
  - unfold writes, logged, fatals in *. cbn.
    destruct (IH (GetContainerTags (router.Message.Container m) a).2)
      as (Hle & Hfatal & Hclosed).
    split; [lia |]. split; [lia |]. intros Hend.
    destruct (Hclosed Hend) as [Heq Hnone]. split; [lia | done].
  - destruct e; cbn.
    + split; [lia |]. split; [lia | done].
    + unfold writes, logged, fatals in *. cbn.
      match goal with
      | |- context [Stream ?a' rest] =>
          destruct (IH a') as (Hle & Hfatal & Hclosed)
      end.
      split; [lia |]. split; [lia |]. intros Hend.
      destruct (Hclosed Hend) as [Heq Hnone]. split; [lia | done].
Qed.

(** X15. Buffers are written in the order the messages arrive: the
    buffers of a run are, one by one and in order, the framed encodings of
    the records of a subsequence of the messages. *)
Theorem Stream_writes_in_arrival_order a logstream :
  exists ms,
    sublist ms logstream /\
    Forall2
      (fun buf m =>
         exists js tags marathonInfo v,
           compose m (newDockerInfo m) tags marathonInfo = Ok v /\
           json.Marshal v = inr js /\
           buf = js +:+ String newline EmptyString)
      (writes (events (Stream a logstream))) ms.
Proof.
  revert a. induction logstream as [|m rest IH]; intros a.
  { exists []. split; [constructor | constructor]. }
  rewrite Stream_cons. turn_cases a m; cbn.
  - exists []. split; [apply sublist_nil_l | constructor].
  - destruct (IH (GetContainerTags (router.Message.Container m) a).2)
      as (ms & Hsub & Hall).
    exists ms. split; [by apply sublist_cons | exact Hall].
  - assert (exists js0 tags marathonInfo0 v0,
              compose m (newDockerInfo m) tags marathonInfo0 = Ok v0 /\
              json.Marshal v0 = inr js0 /\
              js +:+ String newline EmptyString
              = js0 +:+ String newline EmptyString) as Hthis.
    { by exists js, (GetContainerTags (router.Message.Container m) a).1,
        marathonInfo, v. }
    destruct e; cbn.
    + exists [m]. split.
      * apply sublist_skip, sublist_nil_l.
      * unfold writes. cbn. constructor; [exact Hthis | constructor].
    + match goal with
      | |- context [Stream ?a' rest] =>
          destruct (IH a') as (ms & Hsub & Hall)
      end.
      exists (m :: ms). split; [by apply sublist_skip |].
      unfold writes in *. cbn. constructor; [exact Hthis | exact Hall].
Qed.

Lemma GetContainerTags_subseteq (c : docker.Container.t) a :
  containerTags a ⊆ containerTags (GetContainerTags c a).2.
Proof.
  destruct (containerTags a !! docker.Container.ID c) as [tags|] eqn:Hc.
  - by rewrite (GetContainerTags_hit c a tags).
  - rewrite GetContainerTags_miss by done. cbn. by apply insert_subseteq.
Qed.

Lemma GetContainerTags_cached (c : docker.Container.t) a :
  containerTags (GetContainerTags c a).2 !! docker.Container.ID c
  = Some (GetContainerTags c a).1.
Proof.
  destruct (containerTags a !! docker.Container.ID c) as [tags|] eqn:Hc.
  - by rewrite (GetContainerTags_hit c a tags).
  - rewrite GetContainerTags_miss by done. cbn. apply lookup_insert_eq.
Qed.

(** X16. The cache only grows during a run: every entry it had is still
    there, unchanged, at the end; and after a run that ended with the
    channel closed, every container that sent a message has an entry. *)
Theorem Stream_cache_grows a logstream :
  containerTags a ⊆ containerTags (adapter (Stream a logstream)) /\
  (ended (Stream a logstream) = Closed ->
   forall m, m ∈ logstream ->
     is_Some (containerTags (adapter (Stream a logstream))
                !! docker.Container.ID (router.Message.Container m))).
Proof.
  revert a. induction logstream as [|m rest IH]; intros a.
  { cbn. split; [done |]. intros _ m Hm. by apply elem_of_nil in Hm. }
  pose proof (GetContainerTags_subseteq (router.Message.Container m) a)
    as Hsub.
  pose proof (GetContainerTags_cached (router.Message.Container m) a)
    as Hself.
  rewrite Stream_cons. turn_cases a m; cbn.
  - split; [done | done].
  - destruct (IH (GetContainerTags (router.Message.Container m) a).2)
      as [Hgrow Hall].
    split; [by etrans |]. intros Hend m' Hm'.
    apply elem_of_cons in Hm' as [->|Hm']; [| by apply Hall].
    eexists. eapply lookup_weaken; [exact Hself | exact Hgrow].
  - destruct e; cbn; [split; [done | done] |].
    match goal with
    | |- context [Stream ?a' rest] => destruct (IH a') as [Hgrow Hall]
    end.
    cbn in Hgrow. split; [by etrans |]. intros Hend m' Hm'.
    apply elem_of_cons in Hm' as [->|Hm']; [| by apply Hall].
    eexists. eapply lookup_weaken; [exact Hself | exact Hgrow].
Qed.

(** X17. A payload that does not decode is never dropped for an encoding
    error: once the labels are read, the loop hands the connection the
    new message, fields in the order [message], [stream], [docker],
    [marathon], [tags], followed by a newline. *)
Theorem fallback_is_always_written a m logstream err marathonInfo :
  json.Unmarshal (router.Message.Data m) = inl err ->
  GetMarathonInfo (router.Message.Container m)
    (GetContainerTags (router.Message.Container m) a).2 = Ok marathonInfo ->
  exists rest,
    events (Stream a (m :: logstream)) =
      Written
        (json.encodeMessage
           {| LogstashMessage.Message := router.Message.Data m;
              LogstashMessage.Stream := router.Message.Source m;
              LogstashMessage.Docker := newDockerInfo m;
              LogstashMessage.Marathon := Some marathonInfo;
              LogstashMessage.Tags :=
                (GetContainerTags (router.Message.Container m) a).1 |}
         +:+ String newline EmptyString) :: rest.
Proof.
  intros Herr Hinfo. rewrite Stream_cons.
  destruct (GetContainerTags (router.Message.Container m) a)
    as [tags a1] eqn:Htags. cbn in Hinfo. cbn [fst].
  rewrite (Stream_body_composed a m tags a1 marathonInfo _ Htags Hinfo
             (compose_fallback m _ tags marathonInfo err Herr)).
  cbn. destruct (Write _ _) as [c [e|]]; cbn; by eexists.
Qed.

Lemma Stream_keeps_allocated a logstream :
  cache_allocated a ->
  cache_allocated (adapter (Stream a logstream)) /\
  (forall buf,
     Written buf ∈ events (Stream a logstream) ->
     exists m js l marathonInfo v,
       m ∈ logstream /\
       compose m (newDockerInfo m) (Some l) marathonInfo = Ok v /\
       json.Marshal v = inr js /\
       buf = js +:+ String newline EmptyString).
Proof.
  revert a. induction logstream as [|m rest IH]; intros a Halloc.
  { cbn. split; [done |]. intros buf Hbuf. by apply elem_of_nil in Hbuf. }
  destruct (GetContainerTags_keeps_allocated (router.Message.Container m) a
              Halloc) as [[l Hl] Halloc1].
  assert (forall c : C, @cache_allocated C
            {| conn := c;
               containerTags :=
                 containerTags
                   (GetContainerTags (router.Message.Container m) a).2 |})
    as Halloc2 by (intros c; exact Halloc1).
  assert (forall a' : @LogstashAdapter C,
            cache_allocated a' ->
            cache_allocated (adapter (Stream a' rest)) /\
            (forall buf,
               Written buf ∈ events (Stream a' rest) ->
               exists m0 js l0 marathonInfo v,
                 m0 ∈ m :: rest /\
                 compose m0 (newDockerInfo m0) (Some l0) marathonInfo = Ok v /\
                 json.Marshal v = inr js /\
                 buf = js +:+ String newline EmptyString)) as IH'.
  { intros a' Ha'. destruct (IH a' Ha') as [Hc Hw]. split; [done |].
    intros buf Hbuf.
    destruct (Hw buf Hbuf) as (m0 & js & l0 & mi & v & Hm0 & Hrest).
    exists m0, js, l0, mi, v. split; [by apply list_elem_of_further | done]. }
  rewrite Stream_cons. turn_cases a m; cbn.
  - split; [done |]. intros buf Hbuf. by apply elem_of_nil in Hbuf.
  - destruct (IH' _ Halloc1) as [Hc Hw]. split; [done |].
    intros buf Hbuf. apply elem_of_cons in Hbuf as [Hbuf|Hbuf]; [done |].
    by apply Hw.
  - assert (exists m0 js0 l0 marathonInfo0 v0,
              m0 ∈ m :: rest /\
              compose m0 (newDockerInfo m0) (Some l0) marathonInfo0 = Ok v0 /\
              json.Marshal v0 = inr js0 /\
              js +:+ String newline EmptyString
              = js0 +:+ String newline EmptyString) as Hthis.
    { exists m, js, l, marathonInfo, v.
      split; [apply list_elem_of_here |]. by rewrite <- Hl. }
    destruct e; cbn.
    + split; [apply Halloc2 |]. intros buf Hbuf.
      apply elem_of_cons in Hbuf as [Hbuf|Hbuf]; [by simplify_eq |].
      apply elem_of_cons in Hbuf as [Hbuf|Hbuf]; [done |].
      by apply elem_of_nil in Hbuf.
    + destruct (IH' _ (Halloc2 c)) as [Hc Hw]. split; [done |].
      intros buf Hbuf.
      apply elem_of_cons in Hbuf as [Hbuf|Hbuf]; [by simplify_eq |].
      by apply Hw.
Qed.

(** X18. Started with a cache of allocated slices, as a new adapter is,
    the loop only ever encodes records whose tags are an allocated slice,
    so [tags] is written as an array and never as [null]; and the cache is
    still of that kind at the end. *)
Theorem Stream_tags_never_nil a logstream :
  cache_allocated a ->
  cache_allocated (adapter (Stream a logstream)) /\
  (forall buf,
     Written buf ∈ events (Stream a logstream) ->
     exists m js l marathonInfo v,
       m ∈ logstream /\
       compose m (newDockerInfo m) (Some l) marathonInfo = Ok v /\
       json.Marshal v = inr js /\
       buf = js +:+ String newline EmptyString).
Proof. apply Stream_keeps_allocated. Qed.

End LoopFacts.

(** ** From construction to the loop *)

Section Constructed.
Context {F : Float64} {C : Type} `{Conn C}.
Variable AdapterTransports_Lookup : string -> option (@AdapterTransport C).
Variable Route_AdapterTransport : Route.t -> string -> string.

Local Abbreviation New :=
  (NewLogstashAdapter AdapterTransports_Lookup Route_AdapterTransport).

Lemma NewLogstashAdapter_inr route a :
  New route = inr a ->
  (exists transport,
     AdapterTransports_Lookup (Route_AdapterTransport route "udp")
     = Some transport /\
     Dial transport (Route.Address route) (Route.Options route)
     = inr (conn a)) /\
  containerTags a = ∅.
Proof.
  unfold NewLogstashAdapter. intros Hnew.
  destruct (AdapterTransports_Lookup _) as [transport|]; [| done].
  destruct (Dial transport _ _) as [err|c] eqn:Hdial; [done |].
  simplify_eq. cbn. split; [by exists transport | done].
Qed.

(** X21. An adapter that [NewLogstashAdapter] returns holds the connection
    that the transport found under the route's name, [udp] by default,
    dialled for the route's address, and starts with an empty cache: the
    tags of whichever container logs first are read from its environment,
    and every buffer a run writes is the encoding of a record whose tags
    are an allocated slice. *)
Theorem NewLogstashAdapter_then_Stream route a :
  New route = inr a ->
  (exists transport,
     AdapterTransports_Lookup (Route_AdapterTransport route "udp")
     = Some transport /\
     Dial transport (Route.Address route) (Route.Options route)
     = inr (conn a)) /\
  (forall c : docker.Container.t,
     (GetContainerTags c a).1
     = fold_left GetContainerTags_body
         (docker.Config.Env (docker.Container.Config c)) (Some [])) /\
  (forall logstream buf,
     Written buf ∈ events (Stream a logstream) ->
     exists m js l marathonInfo v,
       m ∈ logstream /\
       compose m (newDockerInfo m) (Some l) marathonInfo = Ok v /\
       json.Marshal v = inr js /\
       buf = js +:+ String newline EmptyString).
Proof.
  intros [Hconn Hcache]%NewLogstashAdapter_inr.
  split; [exact Hconn |]. split.
  - intros c. rewrite GetContainerTags_miss; [done |].
    rewrite Hcache. apply lookup_empty.
  - intros logstream.
    apply Stream_keeps_allocated.
    intros id tags Hid. rewrite Hcache in Hid.
    by rewrite lookup_empty in Hid.
Qed.

End Constructed.

(** ** Strings through the encoder and back through the scanner *)

Lemma all_bytes_app (p : ascii -> bool) (a b : string) :
  all_bytes p (a +:+ b) = all_bytes p a && all_bytes p b.
Proof.
  induction a as [|x a IH]; [done |].
  rewrite append_cons. cbn. by rewrite IH, andb_assoc.
Qed.

Lemma unquote_escapeByte (c : ascii) (t : string) :
  isASCII c = true ->
  scanner.unquote 0 (json.escapeByte c +:+ t)
  = String c <$> scanner.unquote 0 t.
Proof.
  destruct c as [[] [] [] [] [] [] [] []]; intros Hc;
    try discriminate Hc; reflexivity.
Qed.

Lemma appendString_ascii (s : string) :
  all_bytes isASCII s = true ->
  scanner.unquote 0 (json.appendString 0 true s) = Some s.
Proof.
  induction s as [|c s IH]; [done |].
  cbn [all_bytes json.appendString]. intros [Hc Hs]%andb_true_iff.
  unfold isASCII in Hc. rewrite Hc.
  rewrite unquote_escapeByte by done. by rewrite IH.
Qed.

Lemma instring_raw (s raw : string) (esc : bool) raw' esc' :
  instring raw esc s = Some (raw', esc') -> raw' = raw +:+ s.
Proof.
  revert raw esc. induction s as [|c s IH]; intros raw esc; cbn.
  - intros [= <- <-]. by rewrite append_nil_r.
  - intros Hin.
    assert (forall e, instring (scanner.snoc raw c) e s = Some (raw', esc') ->
                      raw' = raw +:+ String c s) as Hstep.
    { intros e He. apply IH in He. rewrite He. unfold scanner.snoc.
      by rewrite append_assoc. }
    repeat case_match; try done; eauto.
Qed.

Lemma instring_app (s1 s2 raw : string) (esc : bool) :
  instring raw esc (s1 +:+ s2)
  = instring raw esc s1 ≫= (fun re => instring re.1 re.2 s2).
Proof.
  revert raw esc. induction s1 as [|c s1 IH]; intros raw esc; [done |].
  rewrite append_cons. cbn. repeat case_match; try done; apply IH.
Qed.

Lemma instring_escapeByte (c : ascii) (raw : string) :
  isASCII c = true ->
  instring raw false (json.escapeByte c)
  = Some (raw +:+ json.escapeByte c, false).
Proof.
  intros Hc.
  assert (exists r, instring raw false (json.escapeByte c) = Some (r, false))
    as [r Hr].
  { destruct c as [[] [] [] [] [] [] [] []]; try discriminate Hc;
      eexists; reflexivity. }
  rewrite Hr. by rewrite (instring_raw _ _ _ _ _ Hr).
Qed.

Lemma instring_appendString (s raw : string) :
  all_bytes isASCII s = true ->
  instring raw false (json.appendString 0 true s)
  = Some (raw +:+ json.appendString 0 true s, false).
Proof.
  revert raw. induction s as [|c s IH]; intros raw.
  - intros _. cbn. by rewrite append_nil_r.
  - cbn [all_bytes json.appendString]. intros [Hc Hs]%andb_true_iff.
    unfold isASCII in Hc. rewrite Hc.
    rewrite instring_app, instring_escapeByte by done. cbn.
    rewrite IH by done. by rewrite append_assoc.
Qed.

(** Reading on from inside a string literal up to its closing quote. *)
Lemma lex_from_instring (s raw : string) (esc : bool) raw' rest :
  instring raw esc s = Some (raw', false) ->
  scanner.lex_from (scanner.LInString raw esc) (s +:+ String quote rest)
  = (str ← scanner.unquote 0 raw';
     more ← scanner.lex_from scanner.LIdle rest;
     Some (scanner.TString str :: more)).
Proof.
  revert raw esc. induction s as [|c s IH]; intros raw esc.
  - cbn [instring]. intros [= <- ->]. rewrite append_nil_l.
    cbn [scanner.lex_from scanner.lex_step].
    replace (Ascii.eqb quote quote) with true by done.
    destruct (scanner.unquote 0 raw) as [str|]; [| done]. cbn.
    by destruct (scanner.lex_from scanner.LIdle rest).
  - rewrite append_cons. cbn [instring scanner.lex_from scanner.lex_step].
    intros Hin.
    assert (forall e,
              instring (scanner.snoc raw c) e s = Some (raw', false) ->
              (scanner.lex_from (scanner.LInString (scanner.snoc raw c) e)
                 (s +:+ String quote rest)
               ≫= (fun more => Some ([] ++ more)))
              = (str ← scanner.unquote 0 raw';
                 more ← scanner.lex_from scanner.LIdle rest;
                 Some (scanner.TString str :: more))) as Hstep.
    { intros e He. rewrite (IH _ _ He).
      destruct (scanner.unquote 0 raw') as [str|]; [| done]. cbn.
      by destruct (scanner.lex_from scanner.LIdle rest). }
    destruct esc; [by apply Hstep |].
    destruct (Ascii.eqb c quote); [done |].
    destruct (Ascii.eqb c backslash); [by apply Hstep |].
    destruct (byte_val c <? 32); [done |]. by apply Hstep.
Qed.

Lemma lex_from_encodeString (s rest : string) :
  all_bytes isASCII s = true ->
  scanner.lex_from scanner.LIdle (json.encodeString s +:+ rest)
  = (more ← scanner.lex_from scanner.LIdle rest;
     Some (scanner.TString s :: more)).
Proof.
  intros Hs. unfold json.encodeString.
  rewrite append_cons, append_assoc, append_cons, append_nil_l.
  cbn [scanner.lex_from scanner.lex_step].
  change (scanner.lex_idle quote)
    with (Some (scanner.LInString EmptyString false,
                @nil scanner.token)).
  cbn [mbind option_bind].
  rewrite (lex_from_instring _ _ _ _ rest
             (instring_appendString s EmptyString Hs)).
  rewrite append_nil_l, appendString_ascii by done. cbn.
  by destruct (scanner.lex_from scanner.LIdle rest).
Qed.

(** A text of ASCII bytes survives the trip through the encoder and the
    scanner: the string literal written for it, with its quotes,
    backslashes and control characters escaped, is read back as one string
    token holding the text itself. *)
Lemma encodeString_round_trip (s : string) :
  all_bytes isASCII s = true ->
  scanner.lex (json.encodeString s) = Some [scanner.TString s].
Proof.
  intros Hs. unfold scanner.lex.
  rewrite <- (append_nil_r (json.encodeString s)).
  by rewrite lex_from_encodeString.
Qed.

(** ** No control character on the wire *)

Lemma escapeByte_notControl (c : ascii) :
  all_bytes notControl (json.escapeByte c) = true.
Proof. destruct c as [[] [] [] [] [] [] [] []]; reflexivity. Qed.

Lemma high_notControl (c : ascii) : 0x80 <= byte_val c -> notControl c = true.
Proof. unfold notControl. lia. Qed.

Lemma appendString_notControl (s : string) :
  forall pending copy,
    (copy = true -> high_prefix pending s) ->
    all_bytes notControl (json.appendString pending copy s) = true.
Proof.
  induction s as [|c s IH]; intros pending copy Hpre; [done |].
  cbn [json.appendString]. destruct pending as [|k].
  - destruct (byte_val c <? 128) eqn:Hascii.
    + rewrite all_bytes_app, escapeByte_notControl. cbn. by apply IH.
    + destruct (utf8.DecodeRuneInString (String c s)) as [r size] eqn:Hdec.
      destruct ((r =? utf8.RuneError) && (size =? 1)%nat) eqn:Hbad.
      * rewrite all_bytes_app. cbn. by apply IH.
      * pose proof (DecodeRune_high c s r size Hdec Hbad) as Hhigh.
        destruct ((r =? 8232) || (r =? 8233)) eqn:Hsep.
        -- rewrite all_bytes_app. cbn [all_bytes]. rewrite IH by done.
           apply orb_true_iff in Hsep as [->%Z.eqb_eq | ->%Z.eqb_eq];
             reflexivity.
        -- cbn [all_bytes]. rewrite high_notControl by lia. by apply IH.
  - destruct copy.
    + destruct (Hpre eq_refl) as [Hc Hk].
      cbn [all_bytes]. rewrite high_notControl by done. by apply IH.
    + by apply IH.
Qed.

Lemma encodeString_notControl (s : string) :
  all_bytes notControl (json.encodeString s) = true.
Proof.
  unfold json.encodeString. cbn [all_bytes].
  rewrite all_bytes_app, appendString_notControl by done. reflexivity.
Qed.

Lemma concat_all_bytes (p : ascii -> bool) (sep : string) (l : list string) :
  all_bytes p sep = true ->
  Forall (fun x => all_bytes p x = true) l ->
  all_bytes p (String.concat sep l) = true.
Proof.
  intros Hsep. induction 1 as [|x l Hx Hl IH]; [done |].
  destruct l as [|y l]; [done |].
  change (String.concat sep (x :: y :: l))
    with (x +:+ sep +:+ String.concat sep (y :: l)).
  by rewrite !all_bytes_app, Hx, Hsep, IH.
Qed.

Lemma array_notControl (elems : list string) :
  Forall (fun x => all_bytes notControl x = true) elems ->
  all_bytes notControl (json.array elems) = true.
Proof.
  intros Hl. unfold json.array.
  rewrite append_cons, append_nil_l. cbn [all_bytes].
  rewrite all_bytes_app, concat_all_bytes by done. reflexivity.
Qed.

Lemma object_notControl (fields : list (string * string)) :
  Forall (fun kv => all_bytes notControl kv.2 = true) fields ->
  all_bytes notControl (json.object fields) = true.
Proof.
  intros Hl. unfold json.object.
  rewrite append_cons, append_nil_l. cbn [all_bytes].
  rewrite all_bytes_app, concat_all_bytes; [reflexivity | done |].
  apply Forall_map. eapply Forall_impl; [exact Hl |].
  intros [k v] Hv. unfold json.field.
  by rewrite !all_bytes_app, encodeString_notControl, Hv.
Qed.

Lemma sortedObject_notControl (fields : list (string * string)) :
  Forall (fun kv => all_bytes notControl kv.2 = true) fields ->
  all_bytes notControl (json.sortedObject fields) = true.
Proof.
  intros Hl. apply object_notControl. by rewrite merge_sort_Permutation.
Qed.

Lemma encodeStrings_notControl (l : slice string) :
  all_bytes notControl (json.encodeStrings l) = true.
Proof.
  destruct l as [l|]; [| done]. apply array_notControl.
  apply Forall_map, Forall_forall. intros x _. apply encodeString_notControl.
Qed.

Lemma encodeStringMap_notControl (m : gmap string string) :
  all_bytes notControl (json.encodeStringMap m) = true.
Proof.
  apply sortedObject_notControl, Forall_forall. intros [k v] Hkv.
  apply elem_of_map_to_list in Hkv. rewrite lookup_fmap in Hkv.
  destruct (m !! k) as [x|]; simplify_eq/=. apply encodeString_notControl.
Qed.

Lemma encodeDockerInfo_notControl (d : DockerInfo.t) :
  all_bytes notControl (json.encodeDockerInfo d) = true.
Proof.
  apply object_notControl. repeat constructor; apply encodeString_notControl.
Qed.

Lemma encodeMessage_notControl (msg : LogstashMessage.t) :
  all_bytes notControl (json.encodeMessage msg) = true.
Proof.
  apply object_notControl. rewrite !Forall_app. repeat split.
  - repeat constructor; cbn [snd];
      auto using encodeString_notControl, encodeDockerInfo_notControl.
  - destruct (LogstashMessage.Marathon msg); repeat constructor.
    apply encodeStringMap_notControl.
  - repeat constructor. apply encodeStrings_notControl.
Qed.

Lemma num_step_control (st : scanner.numstate) (c : ascii) :
  notControl c = false -> scanner.num_step st c = scanner.NBad.
Proof.
  destruct c as [[] [] [] [] [] [] [] []]; intros Hc; try discriminate Hc;
    by destruct st.
Qed.

Lemma validNumber_notControl (s : string) :
  scanner.validNumber s = true -> all_bytes notControl s = true.
Proof.
  unfold scanner.validNumber.
  generalize scanner.NBegin as st. induction s as [|c s IH]; intros st;
    [done |].
  cbn [scanner.num_run all_bytes]. intros Hvalid.
  destruct (notControl c) eqn:Hc; [by eapply IH |].
  by rewrite num_step_control, num_run_bad in Hvalid.
Qed.

Section EncodeNoControl.
Context {F : Float64}.

Lemma encode_notControl (v : iface) :
  forall js, json.encode v = Some js -> all_bytes notControl js = true.
Proof.
  induction v as [|b|f|s|l IH|m IH|d|l|m|msg] using iface_ind_nested;
    intros js Hjs; cbn [json.encode] in Hjs.
  - by simplify_eq.
  - simplify_eq. by destruct b.
  - by eapply validNumber_notControl, FormatFloat_number.
  - simplify_eq. apply encodeString_notControl.
  - apply fmap_Some in Hjs as (elems & Helems & ->).
    apply array_notControl. revert elems Helems.
    induction IH as [|x l Hx _ IHl]; intros elems Helems; cbn in Helems.
    + by simplify_eq.
    + destruct (json.encode x) as [s|] eqn:Hs; [| done]. cbn in Helems.
      apply fmap_Some in Helems as (rest & Hrest & ->).
      constructor; [by apply Hx | by apply IHl].
  - apply fmap_Some in Hjs as (fields & Hfields & ->).
    apply sortedObject_notControl. revert fields Hfields IH.
    apply (map_fold_weak_ind
             (fun acc m' =>
                forall fields, acc = Some fields ->
                  map_Forall (fun _ x =>
                    forall js, json.encode x = Some js ->
                      all_bytes notControl js = true) m' ->
                  Forall (fun kv => all_bytes notControl kv.2 = true)
                    fields)).
    + intros fields ? _. by simplify_eq.
    + intros k x m' acc Hk IHm fields Hfields Hall.
      apply map_Forall_insert in Hall as [Hx Hall]; [| done].
      destruct (json.encode x) as [s|] eqn:Hs; [| done]. cbn in Hfields.
      apply fmap_Some in Hfields as (rest & -> & ->).
      constructor; [by apply Hx | by apply IHm].
  - simplify_eq. apply encodeDockerInfo_notControl.
  - simplify_eq. apply encodeStrings_notControl.
  - simplify_eq. apply encodeStringMap_notControl.
  - simplify_eq. apply encodeMessage_notControl.
Qed.

End EncodeNoControl.

Section WireNoControl.
Context {F : Float64} {C : Type} `{Conn C}.

(** X19. Apart from the newline that ends it, a buffer handed to the
    connection holds no control character: no carriage return, tab or NUL
    from a log line or an environment value reaches the wire unescaped. *)
Theorem written_buffer_has_no_control_bytes
    (a : @LogstashAdapter C) (logstream : list router.Message.t) buf :
  Written buf ∈ events (Stream a logstream) ->
  exists js,
    buf = js +:+ String newline EmptyString /\
    all_bytes notControl js = true.
Proof.
  intros Hbuf.
  destruct (Stream_written a logstream buf Hbuf)
    as (m & js & tags & marathonInfo & v & Hm & -> & Hv & Hjs).
  exists js. split; [done |].
  unfold json.Marshal in Hjs.
  destruct (json.encode v) as [s|] eqn:Hs; simplify_eq.
  by eapply encode_notControl.
Qed.

End WireNoControl.

(** ** The written line read back *)

Lemma lexes_app (s1 s2 : string) (t1 t2 : list scanner.token) :
  lexes s1 t1 -> lexes s2 t2 -> lexes (s1 +:+ s2) (t1 ++ t2).
Proof.
  intros H1 H2 rest. rewrite append_assoc, H1, H2.
  destruct (scanner.lex_from scanner.LIdle rest) as [more|]; [| done].
  cbn. by rewrite app_assoc.
Qed.

Lemma lexes_nil : lexes EmptyString [].
Proof.
  intros rest. rewrite append_nil_l.
  by destruct (scanner.lex_from scanner.LIdle rest).
Qed.

Lemma lexes_punct (c : ascii) (t : scanner.token) :
  scanner.lex_idle c = Some (scanner.LIdle, [t]) ->
  lexes (String c EmptyString) [t].
Proof.
  intros Hc rest. rewrite append_cons, append_nil_l.
  cbn [scanner.lex_from scanner.lex_step]. rewrite Hc. cbn.
  by destruct (scanner.lex_from scanner.LIdle rest).
Qed.

Lemma lexes_string (s : string) :
  all_bytes isASCII s = true ->
  lexes (json.encodeString s) [scanner.TString s].
Proof. intros Hs rest. by apply lex_from_encodeString. Qed.

Lemma lexes_lex (s : string) (ts : list scanner.token) :
  lexes s ts -> scanner.lex (s +:+ String newline EmptyString) = Some ts.
Proof.
  intros Hs. unfold scanner.lex. rewrite Hs.
  change (scanner.lex_from scanner.LIdle (String newline EmptyString))
    with (Some (@nil scanner.token)).
  cbn. by rewrite app_nil_r.
Qed.

Section ReadBack.
Context {F : Float64}.

Lemma push_ok (f : json.frame) (stack : list json.frame) (n : nat) :
  Z.of_nat (length stack + S n) < json.maxNestingDepth ->
  json.push f stack = Some (f :: stack).
Proof.
  intros Hn. unfold json.push.
  destruct (Z.of_nat (length stack) <? json.maxNestingDepth) eqn:Hlt;
    [done | lia].
Qed.

Lemma put_continue (v : iface) (stack : list json.frame) (terr : bool)
    (rest : list scanner.token) :
  (json.put v stack ≫= (fun '(st', x0) => Some (st', x0, false)))
  ≫= (fun '(st, x', e0) => json.parse_from st x' (terr || e0) rest)
  = match json.put v stack with
    | Some (st, x') => json.parse_from st x' terr rest
    | None => None
    end.
Proof.
  destruct (json.put v stack) as [[st x']|]; cbn; by rewrite ?orb_false_r.
Qed.

Lemma reads_string (n : nat) (s : string) :
  all_bytes isASCII s = true -> reads n (json.encodeString s) (IString s).
Proof.
  intros Hs. exists [scanner.TString s]. split; [by apply lexes_string |].
  intros stack x terr rest _ [-> | ->]; cbn;
    destruct (json.put (IString s) stack) as [[st x']|]; cbn;
    by rewrite ?orb_false_r.
Qed.

(** The elements of an array after its opening bracket. *)
Lemma reads_elements (n : nat) (es : list string) (vs : list iface) :
  Forall2 (reads n) es vs ->
  es <> [] ->
  exists ts,
    lexes (String.concat "," es) ts /\
    forall items stack terr rest x,
      Z.of_nat (length stack + S n) < json.maxNestingDepth ->
      x = json.XValue \/ x = json.XValueOrEnd ->
      json.parse_from (json.FArray items :: stack) x terr
        (ts ++ scanner.TEndArray :: rest)
      = match json.put (ISlice (rev items ++ vs)) stack with
        | Some (st, x') => json.parse_from st x' terr rest
        | None => None
        end.
Proof.
  induction 1 as [|e v es vs (te & Hlex & Hparse) Hall IH]; [done |].
  intros _. destruct es as [|e' es].
  - apply Forall2_nil_inv_l in Hall as ->.
    exists te. split; [exact Hlex |].
    intros items stack terr rest x Hn Hx.
    rewrite (Hparse (json.FArray items :: stack) x terr
               (scanner.TEndArray :: rest)) by (cbn [length]; done || lia).
    cbn. apply put_continue.
  - destruct (IH ltac:(done)) as (ts & Hlexs & Hparses).
    exists (te ++ scanner.TComma :: ts). split.
    + change (String.concat "," (e :: e' :: es))
        with (e +:+ "," +:+ String.concat "," (e' :: es)).
      apply lexes_app; [exact Hlex |].
      apply (lexes_app "," _ [scanner.TComma]); [| exact Hlexs].
      by apply lexes_punct.
    + intros items stack terr rest x Hn Hx.
      rewrite <- app_assoc.
      rewrite (Hparse (json.FArray items :: stack) x terr) by (cbn [length]; done || lia).
      cbn. rewrite orb_false_r.
      rewrite (Hparses (v :: items) stack terr rest json.XValue)
        by (done || by left).
      cbn. by rewrite <- app_assoc.
Qed.

Lemma reads_array (n : nat) (es : list string) (vs : list iface) :
  Forall2 (reads n) es vs -> reads (S n) (json.array es) (ISlice vs).
Proof.
  intros Hall. unfold json.array. destruct es as [|e es].
  - apply Forall2_nil_inv_l in Hall as ->.
    exists [scanner.TBeginArray; scanner.TEndArray]. split.
    + apply (lexes_app "[" "]" [scanner.TBeginArray] [scanner.TEndArray]);
        by apply lexes_punct.
    + intros stack x terr rest Hn [-> | ->]; cbn;
        rewrite (push_ok _ _ n) by done; cbn;
        destruct (json.put (ISlice []) stack) as [[st x']|]; cbn;
        by rewrite ?orb_false_r.
  - destruct (reads_elements n _ _ Hall ltac:(done)) as (ts & Hlex & Hparse).
    exists (scanner.TBeginArray :: ts ++ [scanner.TEndArray]). split.
    + apply (lexes_app "[" _ [scanner.TBeginArray]);
        [by apply lexes_punct |].
      apply lexes_app; [exact Hlex | by apply lexes_punct].
    + intros stack x terr rest Hn Hx.
      assert (json.parse_from stack x terr
                ((scanner.TBeginArray :: ts ++ [scanner.TEndArray]) ++ rest)
              = json.parse_from (json.FArray [] :: stack) json.XValueOrEnd
                  terr (ts ++ scanner.TEndArray :: rest)) as ->.
      { rewrite <- app_comm_cons, <- app_assoc.
        destruct Hx as [-> | ->]; cbn; rewrite (push_ok _ _ n) by done;
          cbn; by rewrite orb_false_r. }
      by rewrite (Hparse [] stack terr rest json.XValueOrEnd)
        by (done || by right).
Qed.

(** The fields of an object after its opening brace. *)
Lemma reads_fields (n : nat) (fields : list (string * string))
    (kvs : list (string * iface)) :
  Forall2 (fun f kv =>
             f.1 = kv.1 /\ all_bytes isASCII f.1 = true /\
             reads n f.2 kv.2) fields kvs ->
  fields <> [] ->
  exists ts,
    lexes (String.concat "," (map json.field fields)) ts /\
    forall mo stack terr rest x,
      Z.of_nat (length stack + S n) < json.maxNestingDepth ->
      x = json.XKey \/ x = json.XKeyOrEnd ->
      json.parse_from (json.FObject mo None :: stack) x terr
        (ts ++ scanner.TEndObject :: rest)
      = match json.put
                (IMap (foldl (fun m kv => <[kv.1 := kv.2]> m) mo kvs)) stack
        with
        | Some (st, x') => json.parse_from st x' terr rest
        | None => None
        end.
Proof.
  induction 1 as [|[k e] [k' v] fields kvs (Hk & Hascii & te & Hlex & Hparse)
                   Hall IH]; [done |].
  cbn in Hk, Hascii, Hlex, Hparse. subst k'. intros _.
  assert (lexes (json.field (k, e))
            (scanner.TString k :: scanner.TColon :: te)) as Hfield.
  { unfold json.field. cbn [fst snd].
    apply (lexes_app _ _ [scanner.TString k]); [by apply lexes_string |].
    apply (lexes_app ":" _ [scanner.TColon]); [by apply lexes_punct | done]. }
  assert (forall mo stack terr rest x,
            Z.of_nat (length stack + S n) < json.maxNestingDepth ->
            x = json.XKey \/ x = json.XKeyOrEnd ->
            json.parse_from (json.FObject mo None :: stack) x terr
              ((scanner.TString k :: scanner.TColon :: te) ++ rest)
            = json.parse_from (json.FObject (<[k := v]> mo) None :: stack)
                json.XCommaOrEnd terr rest) as Hone.
  { intros mo stack terr rest x Hn Hx.
    assert (json.parse_from (json.FObject mo None :: stack) x terr
              ((scanner.TString k :: scanner.TColon :: te) ++ rest)
            = json.parse_from (json.FObject mo (Some k) :: stack)
                json.XValue terr (te ++ rest)) as ->.
    { destruct Hx as [-> | ->]; cbn; by rewrite !orb_false_r. }
    rewrite (Hparse (json.FObject mo (Some k) :: stack) json.XValue terr
               rest) by (cbn [length]; (by left) || lia).
    done. }
  destruct fields as [|f fields].
  - apply Forall2_nil_inv_l in Hall as ->.
    exists (scanner.TString k :: scanner.TColon :: te). split; [done |].
    intros mo stack terr rest x Hn Hx.
    rewrite (Hone mo stack terr (scanner.TEndObject :: rest) x Hn Hx).
    cbn. apply put_continue.
  - destruct (IH ltac:(done)) as (ts & Hlexs & Hparses).
    exists ((scanner.TString k :: scanner.TColon :: te)
            ++ scanner.TComma :: ts). split.
    + change (String.concat "," (map json.field ((k, e) :: f :: fields)))
        with (json.field (k, e) +:+ ","
              +:+ String.concat "," (map json.field (f :: fields))).
      apply lexes_app; [exact Hfield |].
      apply (lexes_app "," _ [scanner.TComma]); [| exact Hlexs].
      by apply lexes_punct.
    + intros mo stack terr rest x Hn Hx.
      rewrite <- app_assoc.
      rewrite (Hone mo stack terr _ x Hn Hx).
      cbn. rewrite orb_false_r.
      by rewrite (Hparses (<[k := v]> mo) stack terr rest json.XKey)
        by (done || by left).
Qed.

Lemma reads_object (n : nat) (fields : list (string * string))
    (kvs : list (string * iface)) :
  Forall2 (fun f kv =>
             f.1 = kv.1 /\ all_bytes isASCII f.1 = true /\
             reads n f.2 kv.2) fields kvs ->
  reads (S n) (json.object fields)
    (IMap (foldl (fun m kv => <[kv.1 := kv.2]> m) ∅ kvs)).
Proof.
  intros Hall. unfold json.object. destruct fields as [|f fields].
  - apply Forall2_nil_inv_l in Hall as ->.
    exists [scanner.TBeginObject; scanner.TEndObject]. split.
    + apply (lexes_app "{" "}" [scanner.TBeginObject] [scanner.TEndObject]);
        by apply lexes_punct.
    + intros stack x terr rest Hn [-> | ->]; cbn;
        rewrite (push_ok _ _ n) by done; cbn;
        destruct (json.put (IMap ∅) stack) as [[st x']|]; cbn;
        by rewrite ?orb_false_r.
  - destruct (reads_fields n _ _ Hall ltac:(done)) as (ts & Hlex & Hparse).
    exists (scanner.TBeginObject :: ts ++ [scanner.TEndObject]). split.
    + apply (lexes_app "{" _ [scanner.TBeginObject]);
        [by apply lexes_punct |].
      apply lexes_app; [exact Hlex | by apply lexes_punct].
    + intros stack x terr rest Hn Hx.
      assert (json.parse_from stack x terr
                ((scanner.TBeginObject :: ts ++ [scanner.TEndObject])
                 ++ rest)
              = json.parse_from (json.FObject ∅ None :: stack)
                  json.XKeyOrEnd terr (ts ++ scanner.TEndObject :: rest))
        as ->.
      { rewrite <- app_comm_cons, <- app_assoc.
        destruct Hx as [-> | ->]; cbn; rewrite (push_ok _ _ n) by done;
          cbn; by rewrite orb_false_r. }
      by rewrite (Hparse ∅ stack terr rest json.XKeyOrEnd)
        by (done || by right).
Qed.

Lemma reads_mono (n n' : nat) (s : string) (v : iface) :
  (n <= n')%nat -> reads n s v -> reads n' s v.
Proof.
  intros Hle (ts & Hlex & Hparse). exists ts. split; [done |].
  intros stack x terr rest Hn Hx. apply Hparse; [lia | done].
Qed.

(** Text read as an object is what [Unmarshal] returns for it, with or
    without the newline that ends a frame. *)
Lemma reads_Unmarshal (n : nat) (s : string) (d : gmap string iface) :
  Z.of_nat n < json.maxNestingDepth ->
  reads n s (IMap d) ->
  json.Unmarshal (s +:+ String newline EmptyString) = inr (Some d).
Proof.
  intros Hn (ts & Hlex & Hparse). unfold json.Unmarshal.
  rewrite (lexes_lex _ _ Hlex). unfold json.parse.
  rewrite <- (app_nil_r ts).
  rewrite (Hparse [] json.XValue false []) by (cbn; done || (by left)).
  done.
Qed.

Lemma foldl_insert_lookup (kvs : list (string * iface))
    (mo : gmap string iface) (k : string) :
  NoDup kvs.*1 ->
  (forall v, (k, v) ∈ kvs ->
     foldl (fun m kv => <[kv.1 := kv.2]> m) mo kvs !! k = Some v) /\
  (k ∉ kvs.*1 ->
   foldl (fun m kv => <[kv.1 := kv.2]> m) mo kvs !! k = mo !! k).
Proof.
  revert mo. induction kvs as [|[k0 v0] kvs IH]; intros mo Hnodup.
  { split; [intros v Hv; by apply elem_of_nil in Hv | done]. }
  cbn in Hnodup. apply NoDup_cons in Hnodup as [Hk0 Hnodup].
  destruct (IH (<[k0 := v0]> mo) Hnodup) as [IHin IHout]. cbn. split.
  - intros v Hv. apply elem_of_cons in Hv as [Hv|Hv]; [| by apply IHin].
    simplify_eq. rewrite IHout by done. apply lookup_insert_eq.
  - intros Hout. apply not_elem_of_cons in Hout as [Hne Hout].
    rewrite IHout by done. by rewrite lookup_insert_ne.
Qed.

Lemma reads_strings (n : nat) (l : list string) :
  Forall (fun s => all_bytes isASCII s = true) l ->
  reads (S n) (json.encodeStrings (Some l)) (ISlice (IString <$> l)).
Proof.
  intros Hl. cbn [json.encodeStrings]. apply reads_array.
  apply Forall2_fmap, Forall_Forall2_diag.
  eapply Forall_impl; [exact Hl |]. intros s Hs. by apply reads_string.
Qed.

Lemma reads_stringMap (n : nat) (m : gmap string string) :
  map_Forall (fun k v => all_bytes isASCII k = true /\
                         all_bytes isASCII v = true) m ->
  reads (S n) (json.encodeStringMap m) (IMap (IString <$> m)).
Proof.
  intros Hm. unfold json.encodeStringMap, json.sortedObject.
  set (L := merge_sort json.key_le
              (map_to_list (json.encodeString <$> m))).
  assert (forall f, f ∈ L ->
            exists v, m !! f.1 = Some v /\ f.2 = json.encodeString v)
    as Hin.
  { intros [k e] Hf. unfold L in Hf. rewrite merge_sort_Permutation in Hf.
    apply elem_of_map_to_list in Hf. rewrite lookup_fmap in Hf.
    destruct (m !! k) as [v|] eqn:Hk; simplify_eq/=. by exists v. }
  set (g := fun f : string * string =>
              (f.1, IString (default EmptyString (m !! f.1)))).
  assert (foldl (fun mo kv => <[kv.1 := kv.2]> mo) ∅ (g <$> L)
          = IString <$> m) as <-.
  { assert (NoDup (g <$> L).*1) as Hnodup.
    { rewrite <- list_fmap_compose.
      replace ((fst ∘ g) <$> L) with (L.*1)
        by (by apply list_fmap_ext).
      unfold L. rewrite merge_sort_Permutation.
      apply NoDup_fst_map_to_list. }
    apply map_eq. intros k.
    destruct (foldl_insert_lookup (g <$> L) ∅ k Hnodup) as [Hthere Hnot].
    rewrite lookup_fmap. destruct (m !! k) as [v|] eqn:Hk; cbn.
    - apply Hthere. apply list_elem_of_fmap.
      exists (k, json.encodeString v). split.
      + unfold g. cbn. by rewrite Hk.
      + unfold L. rewrite merge_sort_Permutation.
        apply elem_of_map_to_list. by rewrite lookup_fmap, Hk.
    - rewrite Hnot; [done |]. intros Hk'.
      apply list_elem_of_fmap in Hk' as ([k' v'] & -> & Hkv).
      apply list_elem_of_fmap in Hkv as (f & Hg & Hf).
      destruct (Hin f Hf) as (v & Hv & _).
      unfold g in Hg. by simplify_eq/=. }
  apply reads_object.
  apply Forall2_fmap_r, Forall_Forall2_diag, Forall_forall.
  intros f Hf. destruct (Hin f Hf) as (v & Hv & He).
  destruct (Hm _ _ Hv) as [Hk Hvascii].
  unfold g. cbn. rewrite Hv, He. cbn.
  split; [done |]. split; [done |]. by apply reads_string.
Qed.

Lemma reads_dockerInfo (n : nat) (d : DockerInfo.t) :
  all_bytes isASCII (DockerInfo.Name d) = true ->
  all_bytes isASCII (DockerInfo.ID d) = true ->
  all_bytes isASCII (DockerInfo.Image d) = true ->
  all_bytes isASCII (DockerInfo.Hostname d) = true ->
  reads (S n) (json.encodeDockerInfo d)
    (IMap (<["hostname" := IString (DockerInfo.Hostname d)]>
             (<["image" := IString (DockerInfo.Image d)]>
                (<["id" := IString (DockerInfo.ID d)]>
                   (<["name" := IString (DockerInfo.Name d)]> ∅))))).
Proof.
  intros Hname Hid Himage Hhost. unfold json.encodeDockerInfo.
  apply (reads_object n _
           [("name", IString (DockerInfo.Name d));
            ("id", IString (DockerInfo.ID d));
            ("image", IString (DockerInfo.Image d));
            ("hostname", IString (DockerInfo.Hostname d))]).
  repeat constructor; cbn; by apply reads_string.
Qed.

Lemma reads_message (msg : LogstashMessage.t)
    (marathonInfo : gmap string string) (l : list string) :
  LogstashMessage.Marathon msg = Some marathonInfo ->
  LogstashMessage.Tags msg = Some l ->
  all_bytes isASCII (LogstashMessage.Message msg) = true ->
  all_bytes isASCII (LogstashMessage.Stream msg) = true ->
  all_bytes isASCII (DockerInfo.Name (LogstashMessage.Docker msg)) = true ->
  all_bytes isASCII (DockerInfo.ID (LogstashMessage.Docker msg)) = true ->
  all_bytes isASCII (DockerInfo.Image (LogstashMessage.Docker msg)) = true ->
  all_bytes isASCII (DockerInfo.Hostname (LogstashMessage.Docker msg))
  = true ->
  map_Forall (fun k v => all_bytes isASCII k = true /\
                         all_bytes isASCII v = true) marathonInfo ->
  Forall (fun s => all_bytes isASCII s = true) l ->
  reads 2 (json.encodeMessage msg)
    (IMap
       (<["tags" := ISlice (IString <$> l)]>
          (<["marathon" := IMap (IString <$> marathonInfo)]>
             (<["docker" :=
                  IMap (<["hostname" :=
                            IString (DockerInfo.Hostname
                                       (LogstashMessage.Docker msg))]>
                          (<["image" :=
                               IString (DockerInfo.Image
                                          (LogstashMessage.Docker msg))]>
                             (<["id" :=
                                  IString (DockerInfo.ID
                                             (LogstashMessage.Docker msg))]>
                                (<["name" :=
                                     IString (DockerInfo.Name
                                                (LogstashMessage.Docker
                                                   msg))]> ∅))))]>
                (<["stream" := IString (LogstashMessage.Stream msg)]>
                   (<["message" := IString (LogstashMessage.Message msg)]>
                      ∅)))))).
Proof.
  intros Hmar Htags Hmsg Hstream Hname Hid Himage Hhost Hinfo Hl.
  unfold json.encodeMessage. rewrite Hmar, Htags.
  apply (reads_object 1 _
           [("message", IString (LogstashMessage.Message msg));
            ("stream", IString (LogstashMessage.Stream msg));
            ("docker", _);
            ("marathon", IMap (IString <$> marathonInfo));
            ("tags", ISlice (IString <$> l))]).
  repeat constructor; cbn [fst snd].
  - by apply reads_string.
  - by apply reads_string.
  - by apply reads_dockerInfo.
  - by apply reads_stringMap.
  - by apply reads_strings.
Qed.

End ReadBack.

Section WireReadBack.
Context {F : Float64} {C : Type} `{Conn C}.

(** X20. What is written for a payload that did not decode can be decoded
    again: when the payload, the stream name, the container's name, ID,
    image and host name, the labels and the tags are ASCII text, the
    buffer handed to the connection, newline included, is a JSON object
    whose [message] is the payload byte for byte, next to [stream],
    [docker], [marathon] and [tags] with the values the adapter had. *)
Theorem fallback_buffer_decodes
    (a : @LogstashAdapter C) (m : router.Message.t)
    (logstream : list router.Message.t) err marathonInfo l :
  json.Unmarshal (router.Message.Data m) = inl err ->
  GetMarathonInfo (router.Message.Container m)
    (GetContainerTags (router.Message.Container m) a).2 = Ok marathonInfo ->
  (GetContainerTags (router.Message.Container m) a).1 = Some l ->
  all_bytes isASCII (router.Message.Data m) = true ->
  all_bytes isASCII (router.Message.Source m) = true ->
  all_bytes isASCII (docker.Container.Name (router.Message.Container m))
  = true ->
  all_bytes isASCII (docker.Container.ID (router.Message.Container m))
  = true ->
  all_bytes isASCII
    (docker.Config.Image
       (docker.Container.Config (router.Message.Container m))) = true ->
  all_bytes isASCII
    (docker.Config.Hostname
       (docker.Container.Config (router.Message.Container m))) = true ->
  map_Forall (fun k v => all_bytes isASCII k = true /\
                         all_bytes isASCII v = true) marathonInfo ->
  Forall (fun s => all_bytes isASCII s = true) l ->
  exists buf rest,
    events (Stream a (m :: logstream)) = Written buf :: rest /\
    json.Unmarshal buf =
      inr (Some
             (<["tags" := ISlice (IString <$> l)]>
                (<["marathon" := IMap (IString <$> marathonInfo)]>
                   (<["docker" :=
                        IMap
                          (<["hostname" :=
                               IString
                                 (docker.Config.Hostname
                                    (docker.Container.Config
                                       (router.Message.Container m)))]>
                             (<["image" :=
                                  IString
                                    (docker.Config.Image
                                       (docker.Container.Config
                                          (router.Message.Container m)))]>
                                (<["id" :=
                                     IString
                                       (docker.Container.ID
                                          (router.Message.Container m))]>
                                   (<["name" :=
                                        IString
                                          (docker.Container.Name
                                             (router.Message.Container
                                                m))]> ∅))))]>
                      (<["stream" := IString (router.Message.Source m)]>
                         (<["message" := IString (router.Message.Data m)]>
                            ∅)))))).
Proof.
  intros Herr Hinfo Htags Hdata Hsource Hname Hid Himage Hhost Hlabels Hl.
  destruct (GetContainerTags (router.Message.Container m) a)
    as [tags a1] eqn:Hget. cbn in Hinfo, Htags. subst tags.
  rewrite Stream_cons.
  rewrite (Stream_body_composed a m (Some l) a1 marathonInfo _ Hget Hinfo
             (compose_fallback m _ (Some l) marathonInfo err Herr)).
  cbn [json.Marshal json.encode]. cbn zeta.
  pose proof (reads_message
                {| LogstashMessage.Message := router.Message.Data m;
                   LogstashMessage.Stream := router.Message.Source m;
                   LogstashMessage.Docker := newDockerInfo m;
                   LogstashMessage.Marathon := Some marathonInfo;
                   LogstashMessage.Tags := Some l |}
                marathonInfo l eq_refl eq_refl Hdata Hsource Hname Hid
                Himage Hhost Hlabels Hl) as Hread.
  apply (reads_Unmarshal 2) in Hread; [| done].
  destruct (Write _ _) as [c [e|]]; cbn [events];
    eexists; eexists; (split; [reflexivity | exact Hread]).
Qed.

End WireReadBack.

(** ** The properties above on concrete containers and messages *)

(** The cache of a new adapter (line 38) holds allocated slices only: it
    is empty. *)
Lemma newAdapter_allocated {C : Type} (c : C) :
  cache_allocated (newAdapter c).
Proof. intros id tags Hid. cbn in Hid. by rewrite lookup_empty in Hid. Qed.

Lemma GetContainerTags_allocated_witness :
  cache_allocated (newAdapter tt) /\
  is_Some (GetContainerTags (container "c1" ["LOGSTASH_TAGS=prod,web"])
             (newAdapter tt)).1 /\
  cache_allocated
    (GetContainerTags (container "c1" ["LOGSTASH_TAGS=prod,web"])
       (newAdapter tt)).2.
Proof.
  split; [apply newAdapter_allocated |].
  apply (GetContainerTags_allocated
           (container "c1" ["LOGSTASH_TAGS=prod,web"]) (newAdapter tt)).
  apply newAdapter_allocated.
Defined.

Lemma tags_of_app_witness :
  fold_left GetContainerTags_body ["LOGSTASH_TAGS=a,b"; "PATH=/bin"]
    (Some []) = Some ["a"; "b"] /\
  fold_left GetContainerTags_body ["MARATHON_APP_LABEL_TIER=web"] (Some [])
  = Some ["TIER_web"] /\
  fold_left GetContainerTags_body
    (["LOGSTASH_TAGS=a,b"; "PATH=/bin"] ++ ["MARATHON_APP_LABEL_TIER=web"])
    (Some [])
  = Some (["a"; "b"] ++ ["TIER_web"]).
Proof.
  split; [reflexivity |]. split; [reflexivity |].
  apply (tags_of_app ["LOGSTASH_TAGS=a,b"; "PATH=/bin"]
           ["MARATHON_APP_LABEL_TIER=web"] ["a"; "b"] ["TIER_web"]);
    reflexivity.
Defined.

Lemma GetContainerTags_ignores_other_entries_witness :
  docker.Container.ID (container "c1" ["LOGSTASH_TAGS=a,b"])
  = docker.Container.ID
      (container "c1" ["PATH=/bin"; "LOGSTASH_TAGS=a,b"; "HOME=/root"]) /\
  docker.Config.Env
    (docker.Container.Config (container "c1" ["LOGSTASH_TAGS=a,b"]))
  = List.filter isTagEntry
      (docker.Config.Env
         (docker.Container.Config
            (container "c1"
               ["PATH=/bin"; "LOGSTASH_TAGS=a,b"; "HOME=/root"]))) /\
  GetContainerTags (container "c1" ["LOGSTASH_TAGS=a,b"]) (newAdapter tt)
  = GetContainerTags
      (container "c1" ["PATH=/bin"; "LOGSTASH_TAGS=a,b"; "HOME=/root"])
      (newAdapter tt).
Proof.
  split; [reflexivity |]. split; [reflexivity |].
  apply (GetContainerTags_ignores_other_entries
           (container "c1" ["PATH=/bin"; "LOGSTASH_TAGS=a,b"; "HOME=/root"])
           (container "c1" ["LOGSTASH_TAGS=a,b"]) (newAdapter tt));
    reflexivity.
Defined.

Lemma sibling_GetContainerTags_first_entry_only_witness :
  containerTags (newAdapter tt)
    !! docker.Container.ID
         (container "c1"
            ["PATH=/bin"; "LOGSTASH_TAGS=a,b"; "LOGSTASH_TAGS=c"])
  = None /\
  (sibling.GetContainerTags
     (container "c1" ["PATH=/bin"; "LOGSTASH_TAGS=a,b"; "LOGSTASH_TAGS=c"])
     (newAdapter tt)).1
  = Some (strings.Split "a,b" ",").
Proof.
  split; [reflexivity |].
  apply (proj1 (sibling_GetContainerTags_first_entry_only
                  (container "c1"
                     ["PATH=/bin"; "LOGSTASH_TAGS=a,b"; "LOGSTASH_TAGS=c"])
                  (newAdapter tt) eq_refl)
           ["PATH=/bin"] "a,b" ["LOGSTASH_TAGS=c"]).
  - reflexivity.
  - repeat constructor.
Defined.

Lemma label_value_stops_at_second_equals_witness :
  has_byte "=" "ENVIRONMENT" = false /\
  has_byte "=" "prod" = false /\
  GetMarathonInfo_body ∅ "MARATHON_APP_LABEL_ENVIRONMENT=prod=eu"
  = Ok (<["ENVIRONMENT" := "prod"]> ∅) /\
  GetContainerTags_body (Some [])
    "MARATHON_APP_LABEL_ENVIRONMENT=prod=eu"
  = Some ["ENVIRONMENT_prod_eu"].
Proof.
  split; [reflexivity |]. split; [reflexivity |].
  exact (label_value_stops_at_second_equals "ENVIRONMENT" "prod" "eu" ∅ []
           eq_refl eq_refl).
Defined.

Lemma GetMarathonInfo_last_label_wins_witness :
  docker.Config.Env
    (docker.Container.Config
       (container "c1"
          ["MARATHON_APP_LABEL_TIER=web"; "MARATHON_APP_LABEL_TIER=db";
           "PATH=/bin"]))
  = ["MARATHON_APP_LABEL_TIER=web"]
      ++ ("MARATHON_APP_LABEL_" +:+ "TIER" +:+ "=" +:+ "db")
      :: ["PATH=/bin"] /\
  GetMarathonInfo_range ["MARATHON_APP_LABEL_TIER=web"] ∅
  = Ok (<["TIER" := "web"]> ∅) /\
  GetMarathonInfo
    (container "c1"
       ["MARATHON_APP_LABEL_TIER=web"; "MARATHON_APP_LABEL_TIER=db";
        "PATH=/bin"])
    (newAdapter tt)
  = Ok (<["TIER" := "db"]> (<["TIER" := "web"]> ∅)).
Proof.
  split; [reflexivity |]. split; [reflexivity |].
  apply (GetMarathonInfo_last_label_wins
           (container "c1"
              ["MARATHON_APP_LABEL_TIER=web"; "MARATHON_APP_LABEL_TIER=db";
               "PATH=/bin"])
           (newAdapter tt) ["MARATHON_APP_LABEL_TIER=web"] "TIER" "db"
           ["PATH=/bin"] (<["TIER" := "web"]> ∅)).
  - reflexivity.
  - reflexivity.
  - reflexivity.
  - reflexivity.
  - repeat constructor.
Defined.

Lemma merged_record_keeps_other_keys_witness :
  json.Unmarshal (F := decimalFloat)
    (router.Message.Data (message "c1" [] numberPayload))
  = inr (Some (<["a" := IFloat64 (F := decimalFloat) "1"]> ∅)) /\
  exists d,
    compose (F := decimalFloat) (message "c1" [] numberPayload)
      (newDockerInfo (message "c1" [] numberPayload)) (Some []) ∅
    = Ok (IMap d) /\
    d !! "stream" = Some (IString "stdout") /\
    d !! "a" = Some (IFloat64 (F := decimalFloat) "1").
Proof.
  split; [reflexivity |].
  destruct (merged_record_keeps_other_keys (F := decimalFloat)
              (message "c1" [] numberPayload)
              (newDockerInfo (message "c1" [] numberPayload)) (Some []) ∅
              (<["a" := IFloat64 (F := decimalFloat) "1"]> ∅) eq_refl)
    as (d & Hd & _ & _ & Hstream & _ & Hother).
  exists d. split; [exact Hd |]. split; [exact Hstream |].
  rewrite Hother by discriminate. reflexivity.
Defined.

Lemma fallback_is_always_written_witness :
  json.Unmarshal (F := decimalFloat)
    (router.Message.Data (message "c1" ["LOGSTASH_TAGS=prod,web"] "hello"))
  = inl json.SyntaxError /\
  exists rest,
    events (Stream (F := decimalFloat) (H := quotaConn) (newAdapter 9%nat)
              [message "c1" ["LOGSTASH_TAGS=prod,web"] "hello"])
    = Written helloLine :: rest.
Proof.
  split; [reflexivity |].
  exact (fallback_is_always_written (F := decimalFloat) (H := quotaConn)
           (newAdapter 9%nat)
           (message "c1" ["LOGSTASH_TAGS=prod,web"] "hello") []
           json.SyntaxError ∅ eq_refl eq_refl).
Defined.

Lemma Stream_tags_never_nil_witness :
  cache_allocated (newAdapter 9%nat) /\
  cache_allocated
    (adapter (Stream (F := decimalFloat) (H := quotaConn) (newAdapter 9%nat)
                [message "c1" [] "hello"; message "c2" [] numberPayload])) /\
  exists m js l marathonInfo v,
    m ∈ [message "c1" [] "hello"; message "c2" [] numberPayload] /\
    compose (F := decimalFloat) m (newDockerInfo m) (Some l) marathonInfo
    = Ok v /\
    json.Marshal v = inr js /\
    json.encodeMessage
      {| LogstashMessage.Message := "hello";
         LogstashMessage.Stream := "stdout";
         LogstashMessage.Docker := newDockerInfo (message "c1" [] "hello");
         LogstashMessage.Marathon := Some ∅;
         LogstashMessage.Tags := Some [] |}
    +:+ String newline EmptyString
    = js +:+ String newline EmptyString.
Proof.
  split; [apply newAdapter_allocated |].
  destruct (Stream_tags_never_nil (F := decimalFloat) (H := quotaConn)
              (newAdapter 9%nat)
              [message "c1" [] "hello"; message "c2" [] numberPayload]
              (newAdapter_allocated 9%nat)) as [Hcache Hwritten].
  split; [exact Hcache |].
  apply Hwritten. apply list_elem_of_here.
Defined.

Lemma written_buffer_has_no_control_bytes_witness :
  Written helloLine
    ∈ events (Stream (F := decimalFloat) (H := quotaConn) (newAdapter 9%nat)
                [message "c1" ["LOGSTASH_TAGS=prod,web"] "hello"]) /\
  exists js,
    helloLine = js +:+ String newline EmptyString /\
    all_bytes notControl js = true.
Proof.
  assert (Written helloLine
            ∈ events (Stream (F := decimalFloat) (H := quotaConn)
                        (newAdapter 9%nat)
                        [message "c1" ["LOGSTASH_TAGS=prod,web"] "hello"]))
    as Hin by apply list_elem_of_here.
  split; [exact Hin |].
  exact (written_buffer_has_no_control_bytes _ _ _ Hin).
Defined.

Lemma fallback_buffer_decodes_witness :
  json.Unmarshal (F := decimalFloat)
    (router.Message.Data (message "c1" ["LOGSTASH_TAGS=prod,web"] "hello"))
  = inl json.SyntaxError /\
  all_bytes isASCII "hello" = true /\
  exists rest,
    events (Stream (F := decimalFloat) (H := quotaConn) (newAdapter 9%nat)
              [message "c1" ["LOGSTASH_TAGS=prod,web"] "hello"])
    = Written helloLine :: rest /\
    json.Unmarshal (F := decimalFloat) helloLine
    = inr (Some
             (<["tags" := ISlice [IString "prod"; IString "web"]]>
                (<["marathon" := IMap ∅]>
                   (<["docker" :=
                        IMap (<["hostname" := IString "host1"]>
                                (<["image" := IString "nginx"]>
                                   (<["id" := IString "c1"]>
                                      (<["name" := IString "/web"]> ∅))))]>
                      (<["stream" := IString "stdout"]>
                         (<["message" := IString "hello"]> ∅)))))).
Proof.
  split; [reflexivity |]. split; [reflexivity |].
  assert (Forall (fun s => all_bytes isASCII s = true) ["prod"; "web"])
    as Htags by (repeat constructor).
  destruct (fallback_buffer_decodes (F := decimalFloat) (H := quotaConn)
              (newAdapter 9%nat)
              (message "c1" ["LOGSTASH_TAGS=prod,web"] "hello") []
              json.SyntaxError ∅ ["prod"; "web"]
              eq_refl eq_refl eq_refl eq_refl eq_refl eq_refl eq_refl
              eq_refl eq_refl (map_Forall_empty _)
              Htags)
    as (buf & rest & Hevents & Hdecodes).
  exists rest.
  assert (buf = helloLine) as -> by (injection Hevents as <- _; reflexivity).
  split; [exact Hevents |].
  rewrite Hdecodes. rewrite fmap_empty. reflexivity.
Defined.

Lemma NewLogstashAdapter_then_Stream_witness :
  NewLogstashAdapter udpOnly transportOf
    {| Route.Adapter := "logstash";
       Route.Address := "logs:5000";
       Route.Options := ∅ |}
  = inr (newAdapter 9%nat) /\
  (GetContainerTags (container "c1" ["LOGSTASH_TAGS=prod,web"])
     (newAdapter 9%nat)).1
  = Some ["prod"; "web"].
Proof.
  split; [reflexivity |].
  destruct (NewLogstashAdapter_then_Stream (F := decimalFloat)
              (H := quotaConn) udpOnly transportOf
              {| Route.Adapter := "logstash";
                 Route.Address := "logs:5000";
                 Route.Options := ∅ |}
              (newAdapter 9%nat) eq_refl) as (_ & Htags & _).
  rewrite Htags. reflexivity.
Defined.
